(** * HR Attrition Dashboard (app.py)

    A shallow embedding of the data path of the dashboard script: the
    loader (lines 16-18), the sidebar widgets (lines 26-41), the filter
    block (lines 43-49), the guards of the numbered sections (lines
    55-189), the correlation block (lines 108-116), the two attrition
    tables (lines 119-130) and the CSV export (line 189).

    pandas values are modelled by [value]; a raised Python exception by
    [Raise].  Numbers are exact rationals: every finite int64/float64 is
    one, and comparisons, membership tests and counts are exact on them;
    an infinite float is not a value of the model.  Text is a string of
    code points below 256.  Percentages are computed over the rationals
    and correlations over the reals; the rounding of float64 arithmetic is
    not modelled. *)

From Stdlib Require Import List String Ascii ZArith QArith Qround Qabs Bool Lia.
From Stdlib Require Import Reals Qreals Lra DecimalString DecimalPos SetoidList Sorted.
Import ListNotations.

Local Open Scope string_scope.
Local Open Scope list_scope.

(* ================================================================== *)
(** ** Exceptions *)

Inductive exn : Type :=
| KeyError (label : string)
| TypeError
| ValueError
| ParserError
| EmptyDataError
| StreamlitAPIException.

Inductive result (A : Type) : Type :=
| Ok (a : A)
| Raise (e : exn).

Arguments Ok {A} a.
Arguments Raise {A} e.

Definition bind {A B : Type} (c : result A) (k : A -> result B) : result B :=
  match c with
  | Ok a => k a
  | Raise e => Raise e
  end.

Notation "x <- c ;; k" := (bind c (fun x => k))
  (at level 61, c at next level, right associativity).

(* ================================================================== *)
(** ** Cells, series and frames *)

(** A cell of a frame read by [pd.read_csv]: missing, text or number. *)
Inductive value : Type :=
| NaN
| Str (s : string)
| Num (q : Q).

(** Column dtype as [read_csv] infers it; boolean indexing keeps it. *)
Inductive dtype : Type := Number | Object.

Definition row : Type := list value.

Record DataFrame : Type := mkFrame {
  schema : list (string * dtype);
  rows : list row
}.

(** [df.columns] *)
Definition columns (df : DataFrame) : list string := map fst (schema df).

Definition isnull (v : value) : bool :=
  match v with NaN => true | _ => false end.

(** Equality of two cells as [isin] and [unique] see it. *)
Definition value_eqb (a b : value) : bool :=
  match a, b with
  | NaN, NaN => true
  | Str s, Str t => String.eqb s t
  | Num p, Num q => Qeq_bool p q
  | _, _ => false
  end.

Fixpoint index_of (name : string) (cols : list string) : option nat :=
  match cols with
  | [] => None
  | c :: cs =>
      if String.eqb name c then Some O
      else option_map S (index_of name cs)
  end.

(** ['name' in df.columns] *)
Definition has_column (df : DataFrame) (name : string) : bool :=
  match index_of name (columns df) with Some _ => true | None => false end.

(** The cell of a row at a column position; a short row reads as missing. *)
Definition cell (i : nat) (r : row) : value := nth i r NaN.

(** [df[name]]: the series of a column, [KeyError] when it is absent. *)
Definition getitem (df : DataFrame) (name : string) : result (list value) :=
  match index_of name (columns df) with
  | Some i => Ok (map (cell i) (rows df))
  | None => Raise (KeyError name)
  end.

(** [s.dropna()] *)
Definition dropna (s : list value) : list value :=
  filter (fun v => negb (isnull v)) s.

Definition mem (v : value) (l : list value) : bool := existsb (value_eqb v) l.

(** [s.unique()]: distinct values in order of first appearance. *)
Fixpoint unique_acc (seen s : list value) : list value :=
  match s with
  | [] => []
  | v :: s' =>
      if mem v seen then unique_acc seen s'
      else v :: unique_acc (v :: seen) s'
  end.

Definition unique (s : list value) : list value := unique_acc [] s.

(** [s.isin(values)] *)
Definition isin (s values : list value) : list bool :=
  map (fun v => mem v values) s.

(** [s >= n] and [s <= n] on a series: a missing cell compares false,
    a text cell cannot be compared with an integer. *)
Definition ge_cell (n : Z) (v : value) : result bool :=
  match v with
  | NaN => Ok false
  | Num q => Ok (Qle_bool (inject_Z n) q)
  | Str _ => Raise TypeError
  end.

Definition le_cell (n : Z) (v : value) : result bool :=
  match v with
  | NaN => Ok false
  | Num q => Ok (Qle_bool q (inject_Z n))
  | Str _ => Raise TypeError
  end.

Fixpoint map_result {A B : Type} (f : A -> result B) (l : list A)
  : result (list B) :=
  match l with
  | [] => Ok []
  | a :: l' => b <- f a ;; bs <- map_result f l' ;; Ok (b :: bs)
  end.

Definition series_ge (s : list value) (n : Z) : result (list bool) :=
  map_result (ge_cell n) s.

Definition series_le (s : list value) (n : Z) : result (list bool) :=
  map_result (le_cell n) s.

(** [m1 & m2] on two boolean series *)
Fixpoint mask_and (m1 m2 : list bool) : list bool :=
  match m1, m2 with
  | a :: m1', b :: m2' => (a && b) :: mask_and m1' m2'
  | _, _ => []
  end.

(** Rows kept by a boolean mask, in their order. *)
Fixpoint select (m : list bool) (rs : list row) : list row :=
  match m, rs with
  | b :: m', r :: rs' => if b then r :: select m' rs' else select m' rs'
  | _, _ => []
  end.

(** [df[mask]]: boolean indexing keeps the columns and their dtypes. *)
Definition loc (df : DataFrame) (m : list bool) : DataFrame :=
  mkFrame (schema df) (select m (rows df)).

(** [s.min()] and [s.max()] skip missing cells and return NaN when
    nothing is left.  Numbers are compared by value and texts by code
    point (a column of text is reduced like any other); a number cannot be
    compared with a text. *)
Definition Qmin_b (a b : Q) : Q := if Qle_bool a b then a else b.
Definition Qmax_b (a b : Q) : Q := if Qle_bool a b then b else a.

Definition lesser (a b : value) : result value :=
  match a, b with
  | Num p, Num q => Ok (Num (Qmin_b p q))
  | Str s, Str t => Ok (Str (if String.leb s t then s else t))
  | _, _ => Raise TypeError
  end.

Definition greater (a b : value) : result value :=
  match a, b with
  | Num p, Num q => Ok (Num (Qmax_b p q))
  | Str s, Str t => Ok (Str (if String.leb s t then t else s))
  | _, _ => Raise TypeError
  end.

Fixpoint fold_result (f : value -> value -> result value)
  (l : list value) (a : value) : result value :=
  match l with
  | [] => Ok a
  | x :: l' => a' <- f a x ;; fold_result f l' a'
  end.

Definition reduce (f : value -> value -> result value) (s : list value)
  : result value :=
  match dropna s with
  | [] => Ok NaN
  | v :: vs => fold_result f vs v
  end.

Definition series_min (s : list value) : result value := reduce lesser s.
Definition series_max (s : list value) : result value := reduce greater s.

(** [int(x)] on a text: white space around it is dropped, then come an
    optional sign and decimal digits, which single underscores may
    separate; anything else is a [ValueError], and so are more than 4300
    digits. *)
Definition is_digit (c : ascii) : bool :=
  (48 <=? nat_of_ascii c)%nat && (nat_of_ascii c <=? 57)%nat.

Definition digit (c : ascii) : Z := Z.of_nat (nat_of_ascii c - 48).

Definition py_space (c : ascii) : bool :=
  let n := nat_of_ascii c in
  ((9 <=? n)%nat && (n <=? 13)%nat) || (n =? 32)%nat || (n =? 133)%nat
  || (n =? 160)%nat.

Fixpoint lstrip (p : ascii -> bool) (l : list ascii) : list ascii :=
  match l with
  | [] => []
  | c :: l' => if p c then lstrip p l' else l
  end.

Definition strip (p : ascii -> bool) (l : list ascii) : list ascii :=
  rev (lstrip p (rev (lstrip p l))).

(** The value of a run of digits and the number of digits in it;
    [after_digit] tells whether the previous character was a digit. *)
Fixpoint digits_value (after_digit : bool) (acc : Z) (count : nat)
  (l : list ascii) : option (Z * nat) :=
  match l with
  | [] => if after_digit then Some (acc, count) else None
  | c :: l' =>
      if is_digit c then digits_value true (acc * 10 + digit c) (S count) l'
      else if Ascii.eqb c "_" then
        if after_digit then digits_value false acc count l' else None
      else None
  end.

(** An optional sign in front of a numeral. *)
Definition take_sign (l : list ascii) : bool * list ascii :=
  match l with
  | [] => (false, [])
  | c :: l' =>
      if Ascii.eqb c "-" then (true, l')
      else if Ascii.eqb c "+" then (false, l')
      else (false, l)
  end.

Definition signed (negative : bool) (n : Z) : Z :=
  if negative then (- n)%Z else n.

Definition int_of_text (s : string) : result Z :=
  let l := take_sign (strip py_space (list_ascii_of_string s)) in
  match digits_value false 0 0 (snd l) with
  | Some (n, count) =>
      if (4300 <? count)%nat then Raise ValueError
      else Ok (signed (fst l) n)
  | None => Raise ValueError
  end.

(** [int(x)]: truncation toward zero on a number; [int(nan)] is a
    [ValueError]. *)
Definition int_of (x : value) : result Z :=
  match x with
  | NaN => Raise ValueError
  | Num q => Ok (if Qle_bool 0 q then Qfloor q else Qceiling q)
  | Str s => int_of_text s
  end.

(* ================================================================== *)
(** ** Sidebar (lines 26-41) *)

(** What the user did with the three widgets; [None] is a widget left
    untouched, [Some l] the options the user left ticked. *)
Record Sidebar : Type := mkSidebar {
  department_pick : option (list value);
  gender_pick : option (list value);
  age_pick : option (Z * Z)
}.

(** [st.sidebar.multiselect(label, options, default=default)]: the
    default until the user edits the widget, afterwards the ticked
    values, which are always among [options]. *)
Definition multiselect (options default : list value)
  (pick : option (list value)) : list value :=
  match pick with
  | None => default
  | Some l => filter (fun v => mem v options) l
  end.

(** The integers a browser holds exactly. *)
Definition MAX_SAFE_INTEGER : Z := 9007199254740991.

Definition js_safe (n : Z) : bool :=
  (- MAX_SAFE_INTEGER <=? n)%Z && (n <=? MAX_SAFE_INTEGER)%Z.

(** [st.sidebar.slider(label, lo, hi, default)]: the default until the
    user moves a handle, afterwards the pair the user set, which lies
    inside the bounds (a pair from outside them is no state of this
    widget and is dropped).  Streamlit refuses a slider whose lower bound
    is not below its upper bound, or whose bounds a browser cannot
    hold. *)
Definition slider (lo hi : Z) (default : Z * Z) (pick : option (Z * Z))
  : result (Z * Z) :=
  if (lo <? hi)%Z && js_safe lo && js_safe hi then
    Ok (match pick with
        | None => default
        | Some p =>
            if (lo <=? fst p)%Z && (fst p <=? snd p)%Z && (snd p <=? hi)%Z
            then p else default
        end)
  else Raise StreamlitAPIException.

(** Lines 28-32 and 34-38, for the column [name]. *)
Definition selected (df : DataFrame) (name : string)
  (pick : option (list value)) : result (list value) :=
  if has_column df name then
    s <- getitem df name ;;
    let options := unique (dropna s) in
    Ok (multiselect options options pick)
  else Ok [].

Definition selected_departments (df : DataFrame) (w : Sidebar) :=
  selected df "Department" (department_pick w).

Definition selected_genders (df : DataFrame) (w : Sidebar) :=
  selected df "Gender" (gender_pick w).

(** Lines 40-41. *)
Definition age_bounds (df : DataFrame) : result (Z * Z) :=
  s <- getitem df "Age" ;;
  lo <- series_min s ;;
  age_min <- int_of lo ;;
  s' <- getitem df "Age" ;;
  hi <- series_max s' ;;
  age_max <- int_of hi ;;
  Ok (age_min, age_max).

Definition age_range (df : DataFrame) (w : Sidebar) : result (Z * Z) :=
  b <- age_bounds df ;;
  slider (fst b) (snd b) b (age_pick w).

(* ================================================================== *)
(** ** Apply filters (lines 43-49) *)

(** Python truthiness of a list: [if selected:] *)
Definition truthy {A : Type} (l : list A) : bool :=
  match l with [] => false | _ => true end.

(** Lines 45-46 and 47-48, for the column [name]. *)
Definition filter_isin (fdf : DataFrame) (name : string)
  (selection : list value) : result DataFrame :=
  if truthy selection then
    s <- getitem fdf name ;;
    Ok (loc fdf (isin s selection))
  else Ok fdf.

(** Line 49. *)
Definition filter_age (fdf : DataFrame) (rng : Z * Z) : result DataFrame :=
  s <- getitem fdf "Age" ;;
  m1 <- series_ge s (fst rng) ;;
  s' <- getitem fdf "Age" ;;
  m2 <- series_le s' (snd rng) ;;
  Ok (loc fdf (mask_and m1 m2)).

(** Lines 44-49 with the three widget values as arguments. *)
Definition apply_filters (df : DataFrame)
  (departments genders : list value) (rng : Z * Z) : result DataFrame :=
  let fdf := df in
  fdf <- filter_isin fdf "Department" departments ;;
  fdf <- filter_isin fdf "Gender" genders ;;
  filter_age fdf rng.

(** [filtered_df] as the script computes it from the frame and the
    state of the sidebar (lines 28-49, in order). *)
Definition filtered_df (df : DataFrame) (w : Sidebar) : result DataFrame :=
  departments <- selected_departments df w ;;
  genders <- selected_genders df w ;;
  rng <- age_range df w ;;
  apply_filters df departments genders rng.

(* ================================================================== *)
(** ** Attrition rate tables (lines 118-130) *)

(** Order of the labels of a table: numbers by value, text by code
    point, numbers before text. *)
Definition value_leb (a b : value) : bool :=
  match a, b with
  | NaN, _ => true
  | _, NaN => false
  | Num p, Num q => Qle_bool p q
  | Num _, Str _ => true
  | Str _, Num _ => false
  | Str s, Str t => String.leb s t
  end.

Fixpoint insert_sorted (v : value) (l : list value) : list value :=
  match l with
  | [] => [v]
  | x :: l' => if value_leb v x then v :: l else x :: insert_sorted v l'
  end.

Definition sort_values (l : list value) : list value :=
  fold_right insert_sorted [] l.

(** The sorted distinct labels the group-by behind [pd.crosstab] finds. *)
Definition labels (s : list value) : list value := sort_values (unique s).

(** A table: for each row label, the cells under each column label. *)
Definition table (A : Type) : Type := list (value * list (value * A)).

(** [pd.crosstab] pairs the two series and drops every pair with a
    missing side before counting. *)
Definition complete_pairs (index cols : list value) : list (value * value) :=
  filter (fun p => negb (isnull (fst p)) && negb (isnull (snd p)))
         (combine index cols).

Definition same_pair (c a : value) (p : value * value) : bool :=
  value_eqb (fst p) c && value_eqb (snd p) a.

Definition count_pairs (ps : list (value * value)) (c a : value) : Z :=
  Z.of_nat (List.length (filter (same_pair c a) ps)).

(** [pd.crosstab(index, cols)]: counts, zero where a combination does
    not occur. *)
Definition crosstab (index cols : list value) : table Z :=
  let ps := complete_pairs index cols in
  let row_labels := labels (map fst ps) in
  let col_labels := labels (map snd ps) in
  map (fun c => (c, map (fun a => (a, count_pairs ps c a)) col_labels))
      row_labels.

(** [table.sum(axis=1)] for one row *)
Definition row_sum (cells : list (value * Z)) : Z :=
  fold_right Z.add 0%Z (map snd cells).

(** [normalize='index']: each row divided by its sum, then [fillna(0)].
    Division by zero is 0 on [Q], which is what [fillna(0)] leaves. *)
Definition normalize_index (t : table Z) : table Q :=
  map (fun rc =>
         (fst rc,
          map (fun an => (fst an, inject_Z (snd an) / inject_Z (row_sum (snd rc))))
              (snd rc)))
      t.

(** [table * k] *)
Definition scale (k : Q) (t : table Q) : table Q :=
  map (fun rc => (fst rc, map (fun ax => (fst ax, snd ax * k)) (snd rc))) t.

(** [pd.crosstab(fdf[name], fdf['Attrition'], normalize='index') * 100] *)
Definition crossTabRate (fdf : DataFrame) (name : string)
  : result (table Q) :=
  index <- getitem fdf name ;;
  cols <- getitem fdf "Attrition" ;;
  Ok (scale 100 (normalize_index (crosstab index cols))).

(** Lines 119-123 and 126-130: a table is made only when its column is
    there ([None]: nothing is shown). *)
Definition rate_table (fdf : DataFrame) (name : string)
  : option (result (table Q)) :=
  if has_column fdf name then Some (crossTabRate fdf name) else None.

Definition table1 (fdf : DataFrame) := rate_table fdf "Department".
Definition table2 (fdf : DataFrame) := rate_table fdf "Gender".

(** Sum of the percentages of one row of a table. *)
Definition percent_sum (cells : list (value * Q)) : Q :=
  fold_right Qplus 0 (map snd cells).

(** Lookup of a table as a mapping [{category -> {value -> percentage}}]. *)
Fixpoint assoc {A : Type} (k : value) (l : list (value * A)) : option A :=
  match l with
  | [] => None
  | (k', a) :: l' => if value_eqb k k' then Some a else assoc k l'
  end.

Definition rate (t : table Q) (category attrition : value) : option Q :=
  match assoc category t with
  | Some cells => assoc attrition cells
  | None => None
  end.

(* ================================================================== *)
(** ** Correlation heatmap (lines 108-116) *)

(** [fdf.select_dtypes(include='number').columns] *)
Definition is_number (t : dtype) : bool :=
  match t with Number => true | Object => false end.

Definition numeric_cols (fdf : DataFrame) : list string :=
  map fst (filter (fun c => is_number (snd c)) (schema fdf)).

(** The series of a column known to be there. *)
Definition column (fdf : DataFrame) (name : string) : list value :=
  match getitem fdf name with
  | Ok s => s
  | Raise _ => []
  end.

(** A cell as the float matrix behind [DataFrame.corr] holds it. *)
Definition real_of (v : value) : option R :=
  match v with
  | Num q => Some (Q2R q)
  | _ => None
  end.

(** Pearson correlation uses, for a pair of columns, the rows where both
    cells are present. *)
Fixpoint pairwise (xs ys : list value) : list (R * R) :=
  match xs, ys with
  | x :: xs', y :: ys' =>
      match real_of x, real_of y with
      | Some a, Some b => (a, b) :: pairwise xs' ys'
      | _, _ => pairwise xs' ys'
      end
  | _, _ => []
  end.

Definition Rsum (l : list R) : R := fold_right Rplus 0%R l.

Definition mean (l : list R) : R := (Rsum l / INR (List.length l))%R.

(** Sum of products of deviations from the two means. *)
Definition co_moment (ps : list (R * R)) : R :=
  let mx := mean (map fst ps) in
  let my := mean (map snd ps) in
  Rsum (map (fun p => ((fst p - mx) * (snd p - my))%R) ps).

Definition swap (p : R * R) : R * R := (snd p, fst p).
Definition diag (p : R * R) : R * R := (fst p, fst p).

(** The coefficient over the complete rows of a pair of columns; [None]
    is the NaN pandas stores when a deviation sum is zero. Over the reals
    the quotient lies in [-1, 1], so clipping to that interval is
    omitted. *)
Definition coefficient (ps : list (R * R)) : option R :=
  let sxy := co_moment ps in
  let sxx := co_moment (map diag ps) in
  let syy := co_moment (map diag (map swap ps)) in
  let divisor := sqrt (sxx * syy) in
  if Req_EM_T divisor 0%R then None else Some (sxy / divisor)%R.

(** One entry of the matrix; NaN as well when no row is complete. *)
Definition pearson (xs ys : list value) : option R :=
  match pairwise xs ys with
  | [] => None
  | ps => coefficient ps
  end.

(** [s.var()]: sample variance over the present cells, NaN ([None])
    with fewer than two of them. *)
Definition variance (xs : list value) : option R :=
  let ps := pairwise xs xs in
  if (1 <? List.length ps)%nat
  then Some (co_moment ps / (INR (List.length ps) - 1))%R
  else None.

Definition matrix : Type := list (list (option R)).

(** [fdf[names].corr()] *)
Definition corr (fdf : DataFrame) (names : list string) : matrix :=
  map (fun a => map (fun b => pearson (column fdf a) (column fdf b)) names)
      names.

(** Lines 111-113: the matrix is computed only with more than one
    numeric column; [None] when the block is skipped. *)
Definition correlation_heatmap (fdf : DataFrame) : option matrix :=
  let cols := numeric_cols fdf in
  if (1 <? List.length cols)%nat then Some (corr fdf cols) else None.

Definition entry (m : matrix) (i j : nat) : option R :=
  nth j (nth i m []) None.

(* ================================================================== *)
(** ** CSV export (line 189) and loading (lines 16-18) *)

Definition LF : ascii := "010"%char.
Definition CR : ascii := "013"%char.
Definition DQUOTE : ascii := "034"%char.
Definition COMMA : ascii := ","%char.
Definition SPACE : ascii := " "%char.
Definition TAB : ascii := "009"%char.

Fixpoint any (p : ascii -> bool) (s : string) : bool :=
  match s with
  | EmptyString => false
  | String c s' => p c || any p s'
  end.

(** *** The writer behind [to_csv]: [csv.writer] with the delimiter [,],
    the quote character, minimal quoting, doubled quotes and the line
    terminator LF ([os.linesep] on POSIX). *)

(** Characters that make the writer quote a field. *)
Definition special (c : ascii) : bool :=
  Ascii.eqb c COMMA || Ascii.eqb c DQUOTE || Ascii.eqb c LF.

Fixpoint doubled (s : string) : string :=
  match s with
  | EmptyString => EmptyString
  | String c s' =>
      if Ascii.eqb c DQUOTE then String DQUOTE (String DQUOTE (doubled s'))
      else String c (doubled s')
  end.

Definition write_field (s : string) : string :=
  if any special s
  then String DQUOTE (doubled s ++ String DQUOTE EmptyString)
  else s.

Fixpoint join (fields : list string) : string :=
  match fields with
  | [] => EmptyString
  | [f] => f
  | f :: fs => f ++ String COMMA (join fs)
  end.

(** [writer.writerow(fields)]: a record that would be an empty line (one
    empty field) is written as an empty quoted field. *)
Definition writerow (fields : list string) : string :=
  let record := join (map write_field fields) in
  match fields, record with
  | _ :: _, EmptyString => String DQUOTE (String DQUOTE (String LF EmptyString))
  | _, _ => record ++ String LF EmptyString
  end.

Fixpoint writerows (records : list (list string)) : string :=
  match records with
  | [] => EmptyString
  | r :: rs => writerow r ++ writerows rs
  end.

Section Serializer.

(** How [to_csv] prints a number (digits of an int64, [repr] of a
    float64); the export is defined for any such printer. *)
Variable number_text : Q -> string.





End Serializer.

(** *** The tokenizer behind [pd.read_csv] (C engine, default dialect) *)

Inductive mode : Type :=
| START_RECORD
| START_FIELD
| IN_FIELD
| IN_QUOTED_FIELD
| QUOTE_IN_QUOTED_FIELD
| EAT_CRNL
| EAT_CRNL_NOP
| WHITESPACE_LINE.

(** The tokenizer: its state, the characters of the field being read
    (latest first), the fields of the record being read (latest first)
    and the records read so far (latest first).  In [WHITESPACE_LINE] the
    field buffer holds the blanks seen since the start of the line, which
    the C code reads again when the line turns out not to be blank. *)
Record parser : Type := mkParser {
  state : mode;
  chars : list ascii;
  fields : list string;
  records : list (list string)
}.

Definition PUSH_CHAR (c : ascii) (p : parser) : parser :=
  mkParser (state p) (c :: chars p) (fields p) (records p).

Definition END_FIELD (p : parser) : parser :=
  mkParser (state p) []
           (string_of_list_ascii (rev (chars p)) :: fields p)
           (records p).

Definition END_LINE (p : parser) : parser :=
  mkParser START_RECORD [] [] (rev (fields p) :: records p).

Definition goto (m : mode) (p : parser) : parser :=
  mkParser m (chars p) (fields p) (records p).

Definition drop_chars (p : parser) : parser :=
  mkParser (state p) [] (fields p) (records p).

Definition is_blank (c : ascii) : bool := Ascii.eqb c SPACE || Ascii.eqb c TAB.

Definition in_field (p : parser) (c : ascii) : parser :=
  if Ascii.eqb c LF then END_LINE (END_FIELD p)
  else if Ascii.eqb c CR then goto EAT_CRNL (END_FIELD p)
  else if Ascii.eqb c COMMA then goto START_FIELD (END_FIELD p)
  else PUSH_CHAR c p.

Definition start_field (p : parser) (c : ascii) : parser :=
  if Ascii.eqb c LF then END_LINE (END_FIELD p)
  else if Ascii.eqb c CR then goto EAT_CRNL (END_FIELD p)
  else if Ascii.eqb c DQUOTE then goto IN_QUOTED_FIELD p
  else if Ascii.eqb c COMMA then END_FIELD p
  else goto IN_FIELD (PUSH_CHAR c p).

(** Blank lines are skipped ([skip_blank_lines=True]); a line that
    starts with a blank may still turn out to be one. *)
Definition start_record (p : parser) (c : ascii) : parser :=
  if Ascii.eqb c LF then p
  else if Ascii.eqb c CR then goto EAT_CRNL_NOP p
  else if is_blank c then goto WHITESPACE_LINE (PUSH_CHAR c p)
  else start_field (goto START_FIELD p) c.

Definition step (p : parser) (c : ascii) : parser :=
  match state p with
  | START_RECORD => start_record p c
  | START_FIELD => start_field p c
  | IN_FIELD => in_field p c
  | IN_QUOTED_FIELD =>
      if Ascii.eqb c DQUOTE then goto QUOTE_IN_QUOTED_FIELD p
      else PUSH_CHAR c p
  | QUOTE_IN_QUOTED_FIELD =>
      if Ascii.eqb c DQUOTE then goto IN_QUOTED_FIELD (PUSH_CHAR c p)
      else if Ascii.eqb c COMMA then goto START_FIELD (END_FIELD p)
      else if Ascii.eqb c LF then END_LINE (END_FIELD p)
      else if Ascii.eqb c CR then goto EAT_CRNL (END_FIELD p)
      else goto IN_FIELD (PUSH_CHAR c p)
  | EAT_CRNL =>
      if Ascii.eqb c LF then END_LINE p
      else if Ascii.eqb c COMMA then goto START_FIELD (END_FIELD (END_LINE p))
      else start_record (END_LINE p) c
  | EAT_CRNL_NOP =>
      if Ascii.eqb c LF || Ascii.eqb c COMMA then goto START_RECORD p
      else start_record (goto START_RECORD p) c
  | WHITESPACE_LINE =>
      if Ascii.eqb c LF then goto START_RECORD (drop_chars p)
      else if Ascii.eqb c CR then goto EAT_CRNL_NOP (drop_chars p)
      else if is_blank c then PUSH_CHAR c p
      else in_field (goto IN_FIELD p) c
  end.

Fixpoint tokenize_bytes (p : parser) (buf : string) : parser :=
  match buf with
  | EmptyString => p
  | String c buf' => tokenize_bytes (step p c) buf'
  end.

(** End of the input: an open record is closed, an open quoted field
    is an error. *)
Definition handle_eof (p : parser) : result (list (list string)) :=
  match state p with
  | START_RECORD | WHITESPACE_LINE | EAT_CRNL_NOP => Ok (rev (records p))
  | IN_QUOTED_FIELD => Raise ParserError
  | START_FIELD | IN_FIELD | QUOTE_IN_QUOTED_FIELD =>
      Ok (rev (records (END_LINE (END_FIELD p))))
  | EAT_CRNL => Ok (rev (records (END_LINE p)))
  end.

Definition tokenize (buf : string) : result (list (list string)) :=
  handle_eof (tokenize_bytes (mkParser START_RECORD [] [] []) buf).

(** A record of a table that is [width] fields wide: missing trailing
    fields are read as empty, extra fields are an error. *)
Definition fit (width : nat) (record : list string) : result (list string) :=
  if (width <? List.length record)%nat then Raise ParserError
  else Ok (record ++ repeat EmptyString (width - List.length record)).

(** The width of the table: that of the header, or that of the first
    record when it is longer. *)
Definition table_width (header : list string) (body : list (list string))
  : nat :=
  match body with
  | [] => List.length header
  | first :: _ => Nat.max (List.length header) (List.length first)
  end.

(** [pd.read_csv(buf)] up to what it does next with the text: the
    column names as read (empty or repeated names would be renamed) and
    the text of every cell (to be converted, column by column, to
    missing values, numbers or text).  When the first record is longer
    than the header, the fields in front that have no name are the index
    and not cells of the frame. *)
Definition read_csv (buf : string)
  : result (list string * list (list string)) :=
  lines <- tokenize buf ;;
  match lines with
  | [] => Raise EmptyDataError
  | header :: body =>
      let width := table_width header body in
      body' <- map_result (fit width) body ;;
      Ok (header, map (skipn (width - List.length header)) body')
  end.

(** Lines 16-18, on the text of the file. *)
Definition load_data (ea_csv : string) := read_csv ea_csv.

(** *** Missing values and numbers as the loader reads them in a field *)








(* ================================================================== *)
(** * The numbered sections (lines 55-189) *)

(** One numbered section of the page: the columns its [if] asks for
    (none when the section is not under an [if]) and the columns named
    in its chart or table call. *)
Record page_section := mkSection
  { number : nat; guard : list string; reads : list string }.

Definition sections : list page_section :=
  [ mkSection 1 [] ["Attrition"];
    mkSection 2 ["Department"] ["Department"; "Attrition"];
    mkSection 3 [] ["Age"; "Attrition"];
    mkSection 4 ["Gender"] ["Gender"; "Attrition"];
    mkSection 5 ["Education"] ["Education"; "Attrition"];
    mkSection 6 ["YearsAtCompany"] ["YearsAtCompany"; "Attrition"];
    mkSection 7 ["MonthlyIncome"] ["Attrition"; "MonthlyIncome"];
    mkSection 8 [] ["Attrition"; "Age"];
    mkSection 9 [] [];
    mkSection 10 ["Department"] ["Department"; "Attrition"];
    mkSection 11 ["Gender"] ["Gender"; "Attrition"];
    mkSection 12 ["Education"; "MonthlyIncome"]
                 ["Education"; "MonthlyIncome"; "Attrition"];
    mkSection 13 ["YearsAtCompany"; "MonthlyIncome"]
                 ["YearsAtCompany"; "MonthlyIncome"; "Attrition"];
    mkSection 14 ["MaritalStatus"] ["MaritalStatus"; "Attrition"];
    mkSection 15 ["JobRole"] ["JobRole"; "Attrition"];
    mkSection 16 ["YearsSinceLastPromotion"]
                 ["Attrition"; "YearsSinceLastPromotion"];
    mkSection 17 ["YearsWithCurrManager"]
                 ["Attrition"; "YearsWithCurrManager"];
    mkSection 18 ["Age"; "MonthlyIncome"] ["Age"; "MonthlyIncome"; "Attrition"];
    mkSection 19 [] [];
    mkSection 20 [] [] ].

(** [if 'A' in filtered_df.columns and 'B' in filtered_df.columns]. *)
Definition guard_holds (fdf : DataFrame) (s : page_section) : bool :=
  forallb (has_column fdf) (guard s).

(** The sections the script goes into, in page order. *)
Definition shown (fdf : DataFrame) : list page_section :=
  filter (guard_holds fdf) sections.

(** The columns a section names that the frame does not have. *)
Definition missing_reads (fdf : DataFrame) (s : page_section) : list string :=
  filter (fun name => negb (has_column fdf name)) (reads s).

(* ================================================================== *)
(** * Vocabulary of the statements *)

(** ** Rows and predicates *)

(** The value a row holds in a named field of a frame (missing when the
    frame has no such column). *)
Definition field (df : DataFrame) (name : string) (r : row) : value :=
  match index_of name (columns df) with
  | Some i => cell i r
  | None => NaN
  end.

(** The categorical predicate of lines 45-48 on one row: an empty
    selection switches it off. *)
Definition passes_isin (df : DataFrame) (name : string)
  (selection : list value) (r : row) : bool :=
  negb (truthy selection) || mem (field df name r) selection.

(** The range predicate of line 49 on one cell. *)
Definition in_range (rng : Z * Z) (v : value) : bool :=
  match v with
  | Num q => Qle_bool (inject_Z (fst rng)) q && Qle_bool q (inject_Z (snd rng))
  | _ => false
  end.

(** The range predicate of line 49 on one row. *)
Definition passes_age (df : DataFrame) (rng : Z * Z) (r : row) : bool :=
  in_range rng (field df "Age" r).

(** A text cell. *)
Definition is_text (v : value) : bool :=
  match v with Str _ => true | _ => false end.

(** Comparison of a series with an integer, when it does not raise. *)
Definition ge_b (n : Z) (v : value) : bool :=
  match v with Num q => Qle_bool (inject_Z n) q | _ => false end.

Definition le_b (n : Z) (v : value) : bool :=
  match v with Num q => Qle_bool q (inject_Z n) | _ => false end.

(** What a row has to satisfy to pass lines 45-49: membership in every
    inclusion set that is active (non-empty), and an age inside the
    closed range. *)
Definition satisfies (df : DataFrame) (departments genders : list value)
  (rng : Z * Z) (r : row) : Prop :=
  (departments <> [] -> mem (field df "Department" r) departments = true) /\
  (genders <> [] -> mem (field df "Gender" r) genders = true) /\
  (exists q, field df "Age" r = Num q /\
             inject_Z (fst rng) <= q /\ q <= inject_Z (snd rng)).

(** A list whose elements appear, in the same relative order, in
    another one. *)
Inductive Subsequence {A : Type} : list A -> list A -> Prop :=
| sub_nil : Subsequence [] []
| sub_skip (x : A) (s l : list A) : Subsequence s l -> Subsequence s (x :: l)
| sub_keep (x : A) (s l : list A) :
    Subsequence s l -> Subsequence (x :: s) (x :: l).

(** ** States of the sidebar *)

(** The sidebar with another state of one multiselect. *)
Definition with_departments (w : Sidebar) (pick : option (list value))
  : Sidebar :=
  mkSidebar pick (gender_pick w) (age_pick w).

Definition with_genders (w : Sidebar) (pick : option (list value))
  : Sidebar :=
  mkSidebar (department_pick w) pick (age_pick w).

(** A sidebar nobody touched. *)
Definition untouched : Sidebar := mkSidebar None None None.

(** Nobody in Sales is recorded as male. *)
Definition sales_men : Sidebar :=
  mkSidebar (Some [Str "Sales"]) (Some [Str "Male"]) None.

(** ** Example frames *)

(** Five employees; three of them have a missing cell. *)
Definition staff : DataFrame :=
  mkFrame
    [("EmployeeNumber", Number); ("Department", Object); ("Gender", Object);
     ("Age", Number); ("Attrition", Object)]
    [[Num 1; Str "Sales"; Str "Female"; Num 41; Str "Yes"];
     [Num 2; Str "Research"; Str "Male"; Num 49; Str "No"];
     [Num 4; NaN; Str "Male"; Num 37; Str "Yes"];
     [Num 5; Str "Sales"; NaN; Num 33; Str "No"];
     [Num 7; Str "Research"; Str "Female"; NaN; Str "No"]].

(** Two employees, nothing missing. *)
Definition two_clerks : DataFrame :=
  mkFrame
    [("Department", Object); ("Age", Number); ("Attrition", Object)]
    [[Str "Sales"; Num 30; Str "No"]; [Str "HR"; Num 45; Str "Yes"]].

(** A frame without an age column. *)
Definition no_age : DataFrame :=
  mkFrame
    [("Department", Object); ("Attrition", Object)]
    [[Str "Sales"; Str "No"]; [Str "HR"; Str "Yes"]].

(** A frame without the two categorical columns. *)
Definition ages : DataFrame :=
  mkFrame
    [("EmployeeNumber", Number); ("Age", Number)]
    [[Num 1; Num 25]; [Num 2; Num 30]; [Num 3; Num 30]; [Num 4; Num 40]].

(** ** Tables *)

(** The five employees of the crosstab scenario. *)
Definition five : DataFrame :=
  mkFrame
    [("Department", Object); ("Attrition", Object)]
    [[Str "Sales"; Str "Yes"]; [Str "Sales"; Str "No"];
     [Str "HR"; Str "Yes"]; [Str "HR"; Str "No"];
     [Str "IT"; Str "No"]].

(** The mapping the scenario expects, as written there. *)
Definition five_rates : table Q :=
  [(Str "Sales", [(Str "Yes", 50); (Str "No", 50)]);
   (Str "HR", [(Str "Yes", 50); (Str "No", 50)]);
   (Str "IT", [(Str "Yes", 0); (Str "No", 100)])].

(** Every entry of [s] is an entry of [t] with the same number. *)
Definition submap (s t : table Q) : bool :=
  forallb (fun rc =>
             forallb (fun ax =>
                        match rate t (fst rc) (fst ax) with
                        | Some y => Qeq_bool (snd ax) y
                        | None => false
                        end)
                     (snd rc))
          s.

(** Two tables that are the same mapping, whatever the order of their
    labels. *)
Definition same_mapping (s t : table Q) : bool :=
  (List.length s =? List.length t)%nat && submap s t && submap t s.

(** Two numeric columns with two employees. *)
Definition pay : DataFrame :=
  mkFrame
    [("Age", Number); ("JobRole", Object); ("MonthlyIncome", Number)]
    [[Num 30; Str "Clerk"; Num 1000]; [Num 40; Str "Manager"; Num 3000]].

(** ** Records of the export *)

(** A carriage return. *)
Definition is_cr (c : ascii) : bool := Ascii.eqb c CR.

(** A text the writer and the tokenizer agree on: a carriage return
    only in a field that also holds a delimiter, a quote character or a
    line feed (which make the writer quote the field). *)
Definition writable (s : string) : bool :=
  negb (any is_cr s) || any special s.

(** A record the tokenizer would skip as a blank line: a single field
    made of blanks only. *)
Definition blank_record (r : list string) : bool :=
  match r with
  | [String c s] => negb (any (fun c => negb (is_blank c)) (String c s))
  | _ => false
  end.

(** What the round trip asks of a record: at least one field, every
    field writable, and not a blank line. *)
Definition clean_record (r : list string) : bool :=
  truthy r && forallb writable r && negb (blank_record r).

(** The characters of a string, last first, as the tokenizer holds
    them. *)
Definition rev_string (s : string) : list ascii :=
  rev (list_ascii_of_string s).

(** Characters that end an unquoted field. *)
Definition ends_field (c : ascii) : bool :=
  Ascii.eqb c LF || Ascii.eqb c CR || Ascii.eqb c COMMA.

(** The parser about to read a field: at the start of a record with
    nothing read, or after a delimiter. *)
Definition at_field (first : bool) (fs : list string)
  (rs : list (list string)) : parser :=
  mkParser (if first then START_RECORD else START_FIELD) [] fs rs.












(* ================================================================== *)
(** * Further vocabulary *)

(** Two cells that [isin], [unique] and the group-by treat as one. *)
Definition same_value (a b : value) : Prop := value_eqb a b = true.

(** Some row of the frame has a value in the field. *)
Definition recorded (df : DataFrame) (name : string) : bool :=
  existsb (fun r => negb (isnull (field df name r))) (rows df).

(** A row with nothing missing where the untouched sidebar looks: its
    age, and its department and gender when the frame records any. *)
Definition complete_row (df : DataFrame) (r : row) : bool :=
  (negb (recorded df "Department") || negb (isnull (field df "Department" r))) &&
  (negb (recorded df "Gender") || negb (isnull (field df "Gender" r))) &&
  negb (isnull (field df "Age" r)).

(** [int(x)] on a number: truncation toward zero. *)
Definition trunc (q : Q) : Z := if Qle_bool 0 q then Qfloor q else Qceiling q.

(** A whole number. *)
Definition whole (q : Q) : Prop := q == inject_Z (Qfloor q).

(** A frame whose age column is there but holds no age. *)
Definition ageless : DataFrame :=
  mkFrame
    [("Department", Object); ("Age", Number); ("Attrition", Object)]
    [[Str "Sales"; NaN; Str "No"]; [Str "HR"; NaN; Str "Yes"]].

(** The order in which a table lists its labels. *)
Definition value_le (a b : value) : Prop := value_leb a b = true.

(** Rows of a frame whose field is [c] and whose attrition is [a]. *)
Definition rows_with (fdf : DataFrame) (name : string) (c a : value) : nat :=
  List.length
    (filter (fun r => value_eqb (field fdf name r) c &&
                      value_eqb (field fdf "Attrition" r) a)
            (rows fdf)).

(** Rows of a frame whose field is [c] and whose attrition is recorded. *)
Definition rows_in (fdf : DataFrame) (name : string) (c : value) : nat :=
  List.length
    (filter (fun r => value_eqb (field fdf name r) c &&
                      negb (isnull (field fdf "Attrition" r)))
            (rows fdf)).

(** Sum of an integer quantity over a list of labels. *)
Definition zsum (f : value -> Z) (l : list value) : Z :=
  fold_right Z.add 0%Z (map f l).

(** Sum of the products of the two sides of a list of pairs. *)
Definition dot (l : list (R * R)) : R :=
  Rsum (map (fun p => (fst p * snd p)%R) l).

(** The pairs of deviations from the two means. *)
Definition deviations (ps : list (R * R)) : list (R * R) :=
  map (fun p => ((fst p - mean (map fst ps))%R, (snd p - mean (map snd ps))%R))
      ps.

(** The tokenizer before the first character. *)
Definition initial : parser := mkParser START_RECORD [] [] [].

(** A character of a blank line. *)
Definition blank_or_lf (c : ascii) : bool := is_blank c || Ascii.eqb c LF.

(** Two employees of the same age. *)
Definition same_age : DataFrame :=
  mkFrame (schema pay)
    [[Num 30; Str "Clerk"; Num 1000]; [Num 30; Str "Manager"; Num 3000]].

(** The column holds no text. *)
Definition text_free (df : DataFrame) (name : string) : bool :=
  forallb (fun r => negb (is_text (field df name r))) (rows df).

(** The frame of a file that has a header and nothing else. *)
Definition header_only : DataFrame :=
  mkFrame [("Department", Object); ("Age", Object); ("Attrition", Object)] [].

(** Ages that were written as text. *)
Definition text_ages : DataFrame :=
  mkFrame
    [("Age", Object); ("Attrition", Object)]
    [[Str "30"; Str "No"]; [Str "4_5"; Str "Yes"]].

(** The text ends inside a quoted field that was never closed. *)
Definition in_open_quote (buf : string) : bool :=
  match state (tokenize_bytes initial buf) with
  | IN_QUOTED_FIELD => true
  | _ => false
  end.

(** The numbers of a series, in their order. *)
Definition nums (s : list value) : list Q :=
  flat_map (fun v => match v with Num q => [q] | _ => [] end) s.

(** Two cells that a reduction can compare: two numbers or two texts. *)
Definition same_kind (a b : value) : bool :=
  match a, b with
  | Num _, Num _ => true
  | Str _, Str _ => true
  | _, _ => false
  end.

(* ================================================================== *)
(** * Properties of the filter block *)

Section Monad.
Context {A B : Type}.

Lemma bind_ok (c : result A) (k : A -> result B) (b : B) :
  bind c k = Ok b -> exists a, c = Ok a /\ k a = Ok b.
Proof.
  destruct c as [a | e]; simpl; intros H; [ eauto | discriminate ].
Qed.

Lemma bind_raise (c : result A) (k : A -> result B) (e : exn) :
  c = Raise e -> bind c k = Raise e.
Proof. intros ->; reflexivity. Qed.

End Monad.

(** Invert a chain of binds that ended in [Ok]. *)
Ltac inv_ok :=
  repeat match goal with
  | H : bind _ _ = Ok _ |- _ =>
      let a := fresh "a" in
      let Ha := fresh "Ha" in
      apply bind_ok in H; destruct H as (a & Ha & H)
  | H : Ok _ = Ok _ |- _ => injection H as H; try subst
  | H : Raise _ = Ok _ |- _ => discriminate H
  end.

Lemma select_map (p : row -> bool) (rs : list row) :
  select (map p rs) rs = filter p rs.
Proof.
  induction rs as [| r rs IH]; simpl; [ reflexivity | ].
  rewrite IH; reflexivity.
Qed.

Lemma filter_twice {A : Type} (p q : A -> bool) (l : list A) :
  filter q (filter p l) = filter (fun x => p x && q x) l.
Proof.
  induction l as [| x l IH]; simpl; [ reflexivity | ].
  destruct (p x); simpl; [ destruct (q x) | ]; rewrite IH; reflexivity.
Qed.

Lemma mask_and_map {A : Type} (f g : A -> bool) (l : list A) :
  mask_and (map f l) (map g l) = map (fun x => f x && g x) l.
Proof.
  induction l as [| x l IH]; simpl; [ reflexivity | ].
  rewrite IH; reflexivity.
Qed.

Lemma getitem_ok (df : DataFrame) (name : string) (s : list value) :
  getitem df name = Ok s -> s = map (field df name) (rows df).
Proof.
  unfold getitem, field.
  destruct (index_of name (columns df)); intros H; inv_ok; reflexivity.
Qed.

Lemma getitem_has (df : DataFrame) (name : string) :
  has_column df name = true ->
  getitem df name = Ok (map (field df name) (rows df)).
Proof.
  unfold has_column, getitem, field.
  destruct (index_of name (columns df)); [ reflexivity | discriminate ].
Qed.

Lemma getitem_absent (df : DataFrame) (name : string) :
  has_column df name = false -> getitem df name = Raise (KeyError name).
Proof.
  unfold has_column, getitem.
  destruct (index_of name (columns df)); [ discriminate | reflexivity ].
Qed.

Lemma index_of_In (name : string) (cols : list string) :
  index_of name cols <> None <-> In name cols.
Proof.
  induction cols as [| c cs IH]; simpl.
  - split; [ congruence | tauto ].
  - destruct (String.eqb_spec name c) as [-> | Hne].
    + split; [ auto | congruence ].
    + destruct (index_of name cs); simpl in *; split; intros H.
      * right; apply IH; congruence.
      * congruence.
      * congruence.
      * destruct H as [H | H]; [ congruence | ].
        apply IH in H. congruence.
Qed.

Lemma has_column_In (df : DataFrame) (name : string) :
  has_column df name = true <-> In name (columns df).
Proof.
  unfold has_column. rewrite <- index_of_In.
  destruct (index_of name (columns df)); split; congruence.
Qed.

Lemma series_ge_ok (s : list value) (n : Z) (m : list bool) :
  series_ge s n = Ok m -> m = map (ge_b n) s.
Proof.
  unfold series_ge. revert m.
  induction s as [| v s IH]; simpl; intros m H; inv_ok; [ reflexivity | ].
  rewrite (IH _ Ha0). destruct v; simpl in Ha; inv_ok; reflexivity.
Qed.

Lemma series_le_ok (s : list value) (n : Z) (m : list bool) :
  series_le s n = Ok m -> m = map (le_b n) s.
Proof.
  unfold series_le. revert m.
  induction s as [| v s IH]; simpl; intros m H; inv_ok; [ reflexivity | ].
  rewrite (IH _ Ha0). destruct v; simpl in Ha; inv_ok; reflexivity.
Qed.

Lemma series_ge_total (s : list value) (n : Z) :
  forallb (fun v => negb (is_text v)) s = true ->
  series_ge s n = Ok (map (ge_b n) s).
Proof.
  unfold series_ge.
  induction s as [| v s IH]; simpl; intros H; [ reflexivity | ].
  apply andb_true_iff in H as [Hv Hs]. rewrite (IH Hs).
  destruct v; simpl in *; [ reflexivity | discriminate | reflexivity ].
Qed.

Lemma series_le_total (s : list value) (n : Z) :
  forallb (fun v => negb (is_text v)) s = true ->
  series_le s n = Ok (map (le_b n) s).
Proof.
  unfold series_le.
  induction s as [| v s IH]; simpl; intros H; [ reflexivity | ].
  apply andb_true_iff in H as [Hv Hs]. rewrite (IH Hs).
  destruct v; simpl in *; [ reflexivity | discriminate | reflexivity ].
Qed.

Lemma in_range_split (rng : Z * Z) (v : value) :
  ge_b (fst rng) v && le_b (snd rng) v = in_range rng v.
Proof. destruct v; reflexivity. Qed.

(** Lines 45-48: one categorical stage keeps the schema and filters. *)
Lemma filter_isin_ok (fdf out : DataFrame) (name : string)
  (selection : list value) :
  filter_isin fdf name selection = Ok out ->
  schema out = schema fdf /\
  rows out = filter (passes_isin fdf name selection) (rows fdf).
Proof.
  unfold filter_isin, passes_isin.
  destruct (truthy selection); simpl; intros H; inv_ok.
  - apply getitem_ok in Ha. subst a. split; [ reflexivity | ].
    unfold loc, isin; simpl. rewrite map_map. apply select_map.
  - split; [ reflexivity | ].
    clear. induction (rows out) as [| r rs IH]; simpl; congruence.
Qed.

(** Line 49: the age stage keeps the schema and filters. *)
Lemma filter_age_ok (fdf out : DataFrame) (rng : Z * Z) :
  filter_age fdf rng = Ok out ->
  schema out = schema fdf /\
  rows out = filter (passes_age fdf rng) (rows fdf).
Proof.
  unfold filter_age, passes_age. intros H; inv_ok.
  apply getitem_ok in Ha, Ha1. subst a a1.
  apply series_ge_ok in Ha0. apply series_le_ok in Ha2. subst a0 a2.
  split; [ reflexivity | ].
  unfold loc; simpl. rewrite !map_map, mask_and_map.
  rewrite <- select_map. f_equal. apply map_ext.
  intros r. apply in_range_split.
Qed.

Lemma field_schema (df df' : DataFrame) (name : string) (r : row) :
  schema df' = schema df -> field df' name r = field df name r.
Proof. unfold field, columns. intros ->. reflexivity. Qed.

(** Lines 44-49 as one filter of the rows of the input. *)
Lemma apply_filters_ok (df view : DataFrame)
  (departments genders : list value) (rng : Z * Z) :
  apply_filters df departments genders rng = Ok view ->
  schema view = schema df /\
  rows view =
    filter (fun r => passes_isin df "Department" departments r &&
                     passes_isin df "Gender" genders r &&
                     passes_age df rng r)
           (rows df).
Proof.
  unfold apply_filters. intros H; inv_ok.
  apply filter_isin_ok in Ha as [S1 R1].
  apply filter_isin_ok in Ha0 as [S2 R2].
  apply filter_age_ok in H as [S3 R3].
  split; [ congruence | ].
  rewrite R3, R2, R1, !filter_twice.
  apply filter_ext. intros r.
  unfold passes_isin, passes_age.
  rewrite (field_schema df a "Gender" r S1).
  rewrite (field_schema df a0 "Age" r (eq_trans S2 S1)).
  apply andb_assoc.
Qed.

(** ** Cell equality and [unique] *)

Lemma value_eqb_refl (v : value) : value_eqb v v = true.
Proof.
  destruct v; simpl; [ reflexivity | apply String.eqb_refl | ].
  apply Qeq_bool_iff. reflexivity.
Qed.

Lemma value_eqb_sym (a b : value) : value_eqb a b = value_eqb b a.
Proof.
  destruct a, b; simpl; try reflexivity; [ apply String.eqb_sym | ].
  apply eq_true_iff_eq. rewrite !Qeq_bool_iff. split; intros H; symmetry; exact H.
Qed.

Lemma value_eqb_trans (a b c : value) :
  value_eqb a b = true -> value_eqb b c = true -> value_eqb a c = true.
Proof.
  destruct a, b, c; simpl; try discriminate; try reflexivity.
  - rewrite !String.eqb_eq. congruence.
  - rewrite !Qeq_bool_iff. intros H1 H2. rewrite H1. exact H2.
Qed.

Lemma value_eqb_NaN (v : value) : value_eqb NaN v = true -> v = NaN.
Proof. destruct v; simpl; [ reflexivity | discriminate | discriminate ]. Qed.

Lemma mem_true (v : value) (l : list value) :
  mem v l = true <-> exists x, In x l /\ value_eqb v x = true.
Proof. unfold mem. apply existsb_exists. Qed.

Lemma mem_In (v : value) (l : list value) : In v l -> mem v l = true.
Proof. intros H. apply mem_true. exists v. split; [ exact H | apply value_eqb_refl ]. Qed.

Lemma mem_eqb (a b : value) (l : list value) :
  value_eqb a b = true -> mem a l = mem b l.
Proof.
  intros E. apply eq_true_iff_eq. rewrite !mem_true.
  split; intros (x & Hx & Ex); exists x; split; try exact Hx.
  - apply value_eqb_trans with a; [ rewrite value_eqb_sym; exact E | exact Ex ].
  - apply value_eqb_trans with b; assumption.
Qed.

Lemma mem_NaN (l : list value) : mem NaN l = true -> In NaN l.
Proof.
  intros H. apply mem_true in H as (x & Hx & E).
  apply value_eqb_NaN in E. subst x. exact Hx.
Qed.

Lemma unique_acc_In (seen s : list value) (v : value) :
  In v (unique_acc seen s) -> In v s.
Proof.
  revert seen. induction s as [| x s IH]; simpl; intros seen H; [ exact H | ].
  destruct (mem x seen).
  - right. apply (IH _ H).
  - destruct H as [H | H]; [ left; exact H | right; apply (IH _ H) ].
Qed.

(** [unique] keeps a representative of every value of the series. *)
Lemma mem_unique_acc (seen s : list value) (v : value) :
  mem v seen = false -> mem v (unique_acc seen s) = mem v s.
Proof.
  revert seen. induction s as [| x s IH]; simpl; intros seen Hv; [ reflexivity | ].
  destruct (mem x seen) eqn:Hx.
  - destruct (value_eqb v x) eqn:E; simpl.
    + rewrite (mem_eqb v x seen E) in Hv. congruence.
    + apply IH. exact Hv.
  - simpl. destruct (value_eqb v x) eqn:E; simpl; [ reflexivity | ].
    apply IH. simpl. rewrite E. exact Hv.
Qed.

Lemma mem_unique (s : list value) (v : value) : mem v (unique s) = mem v s.
Proof. apply mem_unique_acc. reflexivity. Qed.

Lemma dropna_In (s : list value) (v : value) :
  In v (dropna s) <-> In v s /\ v <> NaN.
Proof.
  unfold dropna. rewrite filter_In. destruct v; simpl; split; intros [H1 H2];
    (split; [ exact H1 | congruence ]).
Qed.

Lemma mem_dropna (s : list value) (v : value) :
  mem v (dropna s) = negb (isnull v) && mem v s.
Proof.
  induction s as [| x s IH]; simpl.
  - rewrite andb_false_r. reflexivity.
  - destruct x; simpl; rewrite IH; destruct v; simpl; reflexivity.
Qed.

(** The options of a multiselect never hold a missing value. *)
Lemma options_not_null (s : list value) : ~ In NaN (unique (dropna s)).
Proof.
  intros H. apply unique_acc_In in H. apply dropna_In in H as [_ H]. congruence.
Qed.

Lemma multiselect_not_null (s : list value) (pick : option (list value)) :
  let options := unique (dropna s) in
  mem NaN (multiselect options options pick) = false.
Proof.
  intros options. destruct (mem NaN _) eqn:E; [ exfalso | reflexivity ].
  apply mem_NaN in E. destruct pick as [l |]; simpl in E.
  - apply filter_In in E as [_ E]. apply mem_NaN in E.
    exact (options_not_null s E).
  - exact (options_not_null s E).
Qed.

(** ** The sidebar *)

Lemma selected_present (df : DataFrame) (name : string)
  (pick : option (list value)) :
  has_column df name = true ->
  let options := unique (dropna (map (field df name) (rows df))) in
  selected df name pick = Ok (multiselect options options pick).
Proof.
  intros H. unfold selected. rewrite H, (getitem_has _ _ H). reflexivity.
Qed.

Lemma selected_absent (df : DataFrame) (name : string)
  (pick : option (list value)) :
  has_column df name = false -> selected df name pick = Ok [].
Proof. intros H. unfold selected. rewrite H. reflexivity. Qed.

Lemma selected_total (df : DataFrame) (name : string)
  (pick : option (list value)) :
  exists sel, selected df name pick = Ok sel /\
              (truthy sel = true -> has_column df name = true) /\
              mem NaN sel = false.
Proof.
  destruct (has_column df name) eqn:H.
  - eexists. split; [ apply selected_present; exact H | ].
    split; [ reflexivity | apply multiselect_not_null ].
  - exists []. split; [ apply selected_absent; exact H | ].
    split; [ discriminate | reflexivity ].
Qed.

Lemma age_bounds_ok (df : DataFrame) (b : Z * Z) :
  age_bounds df = Ok b -> has_column df "Age" = true.
Proof.
  unfold age_bounds. intros H.
  destruct (has_column df "Age") eqn:E; [ reflexivity | ].
  rewrite (getitem_absent _ _ E) in H. discriminate.
Qed.

Lemma text_free_map (df : DataFrame) (name : string) :
  text_free df name = true ->
  forallb (fun v => negb (is_text v)) (map (field df name) (rows df)) = true.
Proof.
  unfold text_free. rewrite !forallb_forall. intros H v Hv.
  apply in_map_iff in Hv as (r & <- & Hr). apply H, Hr.
Qed.

Lemma age_absent (df : DataFrame) :
  has_column df "Age" = false -> age_bounds df = Raise (KeyError "Age").
Proof. intros H. unfold age_bounds. rewrite (getitem_absent _ _ H). reflexivity. Qed.

(** ** Totality of the filter block *)

Lemma filter_isin_total (fdf : DataFrame) (name : string)
  (selection : list value) :
  (truthy selection = true -> has_column fdf name = true) ->
  filter_isin fdf name selection =
    Ok (mkFrame (schema fdf)
          (filter (passes_isin fdf name selection) (rows fdf))).
Proof.
  intros H. unfold filter_isin, passes_isin.
  destruct (truthy selection); simpl.
  - rewrite (getitem_has _ _ (H eq_refl)). simpl.
    unfold loc, isin. rewrite map_map, select_map. reflexivity.
  - clear H. destruct fdf as [sc rs]; simpl. f_equal. f_equal.
    induction rs as [| r rs IH]; simpl; congruence.
Qed.

Lemma forallb_filter {A : Type} (p q : A -> bool) (l : list A) :
  forallb p l = true -> forallb p (filter q l) = true.
Proof.
  rewrite !forallb_forall. intros H x Hx. apply filter_In in Hx. apply H, Hx.
Qed.

Lemma filter_age_total (fdf : DataFrame) (rng : Z * Z) :
  has_column fdf "Age" = true ->
  forallb (fun v => negb (is_text v)) (map (field fdf "Age") (rows fdf)) = true ->
  filter_age fdf rng =
    Ok (mkFrame (schema fdf) (filter (passes_age fdf rng) (rows fdf))).
Proof.
  intros H T. unfold filter_age. rewrite (getitem_has _ _ H). simpl.
  rewrite (series_ge_total _ _ T), (series_le_total _ _ T). simpl.
  unfold loc, passes_age. rewrite !map_map, mask_and_map, <- select_map.
  do 3 f_equal. apply map_ext. intros r. apply in_range_split.
Qed.

Lemma has_column_schema (df df' : DataFrame) (name : string) :
  schema df' = schema df -> has_column df' name = has_column df name.
Proof. unfold has_column, columns. intros ->. reflexivity. Qed.

Lemma forallb_map_filter {A B : Type} (p : B -> bool) (f : A -> B)
  (q : A -> bool) (l : list A) :
  forallb p (map f l) = true -> forallb p (map f (filter q l)) = true.
Proof.
  rewrite !forallb_forall. intros H y Hy.
  apply in_map_iff in Hy as (x & <- & Hx). apply filter_In in Hx.
  apply H, in_map, Hx.
Qed.

Lemma apply_filters_total (df : DataFrame)
  (departments genders : list value) (rng : Z * Z) :
  (truthy departments = true -> has_column df "Department" = true) ->
  (truthy genders = true -> has_column df "Gender" = true) ->
  has_column df "Age" = true ->
  forallb (fun v => negb (is_text v)) (map (field df "Age") (rows df)) = true ->
  exists view, apply_filters df departments genders rng = Ok view.
Proof.
  intros Hd Hg Ha T. unfold apply_filters.
  rewrite (filter_isin_total _ _ _ Hd). simpl.
  rewrite filter_isin_total by (intros E; apply Hg, E). simpl.
  rewrite filter_age_total; [ eexists; reflexivity | exact Ha | ].
  simpl. unfold field at 1, columns at 1. simpl.
  fold (columns df). fold (field df "Age").
  apply forallb_map_filter, forallb_map_filter, T.
Qed.

Lemma age_range_ok_bounds (df : DataFrame) (w : Sidebar) (rng : Z * Z) :
  age_range df w = Ok rng -> exists b, age_bounds df = Ok b.
Proof. unfold age_range. intros H. inv_ok. eauto. Qed.

(** With no text in the age column, the script reaches a filtered view
    as soon as the sidebar could be built (lines 40-41). *)
Lemma filtered_df_total (df : DataFrame) (w : Sidebar) (rng : Z * Z) :
  age_range df w = Ok rng -> text_free df "Age" = true ->
  exists view, filtered_df df w = Ok view.
Proof.
  intros Hr Ht. unfold filtered_df, selected_departments, selected_genders.
  destruct (selected_total df "Department" (department_pick w))
    as (sd & -> & Hd & _).
  destruct (selected_total df "Gender" (gender_pick w)) as (sg & -> & Hg & _).
  simpl. rewrite Hr. simpl.
  apply age_range_ok_bounds in Hr as (b & Hb).
  apply age_bounds_ok in Hb.
  apply apply_filters_total; [ assumption | assumption | assumption | ].
  apply text_free_map, Ht.
Qed.

(** ** The filtered view *)

(** The script's view is the input filtered by the three predicates,
    with the selections and the range the sidebar returned. *)
Lemma filtered_df_ok (df view : DataFrame) (w : Sidebar) :
  filtered_df df w = Ok view ->
  exists departments genders rng,
    selected_departments df w = Ok departments /\
    selected_genders df w = Ok genders /\
    age_range df w = Ok rng /\
    schema view = schema df /\
    rows view =
      filter (fun r => passes_isin df "Department" departments r &&
                       passes_isin df "Gender" genders r &&
                       passes_age df rng r)
             (rows df).
Proof.
  unfold filtered_df. intros H. inv_ok.
  apply apply_filters_ok in H as [S R].
  exists a, a0, a1. repeat split; assumption.
Qed.

Lemma frame_eq (a b : DataFrame) :
  schema a = schema b -> rows a = rows b -> a = b.
Proof. destruct a, b; simpl; intros -> ->; reflexivity. Qed.

Lemma filter_all {A : Type} (p : A -> bool) (l : list A) :
  (forall x, In x l -> p x = true) -> filter p l = l.
Proof.
  induction l as [| x l IH]; simpl; intros H; [ reflexivity | ].
  rewrite (H x (or_introl eq_refl)), IH; [ reflexivity | ].
  intros y Hy. apply H. right. exact Hy.
Qed.

Lemma in_range_iff (rng : Z * Z) (v : value) :
  in_range rng v = true <->
  exists q, v = Num q /\ inject_Z (fst rng) <= q /\ q <= inject_Z (snd rng).
Proof.
  destruct v as [| s | q]; simpl.
  - split; [ discriminate | intros (q & E & _); discriminate ].
  - split; [ discriminate | intros (q & E & _); discriminate ].
  - rewrite andb_true_iff, !Qle_bool_iff. split.
    + intros [H1 H2]. exists q. auto.
    + intros (q' & E & H1 & H2). injection E as <-. auto.
Qed.

Lemma passes_isin_iff (df : DataFrame) (name : string)
  (selection : list value) (r : row) :
  passes_isin df name selection r = true <->
  (selection <> [] -> mem (field df name r) selection = true).
Proof.
  unfold passes_isin. destruct selection as [| x l]; simpl.
  - split; [ congruence | reflexivity ].
  - split; intros H; [ intros _; exact H | apply H; discriminate ].
Qed.

Lemma passes_all_iff (df : DataFrame) (departments genders : list value)
  (rng : Z * Z) (r : row) :
  passes_isin df "Department" departments r &&
  passes_isin df "Gender" genders r && passes_age df rng r = true <->
  satisfies df departments genders rng r.
Proof.
  unfold satisfies, passes_age.
  rewrite !andb_true_iff, !passes_isin_iff, in_range_iff. tauto.
Qed.

Lemma filter_Subsequence {A : Type} (p : A -> bool) (l : list A) :
  Subsequence (filter p l) l.
Proof.
  induction l as [| x l IH]; simpl; [ constructor | ].
  destruct (p x); constructor; exact IH.
Qed.

(* ------------------------------------------------------------------ *)

Lemma emptied_departments
  (df : DataFrame) (w : Sidebar) (emptied unset : DataFrame) :
  filtered_df df (with_departments w (Some [])) = Ok emptied ->
  filtered_df df (with_departments w None) = Ok unset ->
  (exists genders rng,
      selected_genders df w = Ok genders /\
      age_range df w = Ok rng /\
      rows emptied =
        filter (fun r => passes_isin df "Gender" genders r && passes_age df rng r)
               (rows df)) /\
  ((exists r, In r (rows df) /\ field df "Department" r <> NaN) ->
     rows unset =
       filter (fun r => negb (isnull (field df "Department" r))) (rows emptied)) /\
  ((forall r, In r (rows df) -> field df "Department" r <> NaN) ->
     unset = emptied) /\
  ((forall r, In r (rows df) -> field df "Department" r = NaN) ->
     unset = emptied).
Proof.
  intros He Hu.
  apply filtered_df_ok in He as (sd & sg & rng & Hsd & Hsg & Hr & Se & Re).
  apply filtered_df_ok in Hu as (sd' & sg' & rng' & Hsd' & Hsg' & Hr' & Su & Ru).
  unfold selected_genders in *. simpl in Hsg, Hsg'.
  unfold age_range in *. simpl in Hr, Hr'.
  assert (sg' = sg) by congruence. assert (rng' = rng) by congruence.
  subst sg' rng'. clear Hsg' Hr'.
  unfold selected_departments in *. simpl in Hsd, Hsd'.
  assert (Esd : sd = []).
  { destruct (has_column df "Department") eqn:Hc.
    - rewrite (selected_present _ _ _ Hc) in Hsd. simpl in Hsd. congruence.
    - rewrite (selected_absent _ _ _ Hc) in Hsd. congruence. }
  subst sd.
  assert (Re' : rows emptied =
    filter (fun r => passes_isin df "Gender" sg r && passes_age df rng r) (rows df)).
  { rewrite Re. apply filter_ext. intros r. reflexivity. }
  assert (Hnonnull : (exists r, In r (rows df) /\ field df "Department" r <> NaN) ->
     rows unset =
       filter (fun r => negb (isnull (field df "Department" r))) (rows emptied)).
  { intros (r0 & In0 & N0).
    assert (Hc : has_column df "Department" = true).
    { unfold has_column, field in *.
      destruct (index_of "Department" (columns df)); congruence. }
    rewrite (selected_present _ _ _ Hc) in Hsd'. simpl in Hsd'. inv_ok.
    set (col := map (field df "Department") (rows df)) in *.
    assert (Hm : forall r, In r (rows df) ->
              mem (field df "Department" r) (unique (dropna col)) =
              negb (isnull (field df "Department" r))).
    { intros r Hr0. rewrite mem_unique, mem_dropna.
      unfold col. rewrite (mem_In _ _ (in_map _ _ _ Hr0)).
      apply andb_true_r. }
    assert (Ht : truthy (unique (dropna col)) = true).
    { specialize (Hm r0 In0).
      destruct (unique (dropna col)); [ | reflexivity ].
      simpl in Hm. destruct (field df "Department" r0); simpl in Hm; congruence. }
    rewrite Ru, Re', filter_twice. apply filter_ext_in. intros r Hr0.
    unfold passes_isin at 1. rewrite Ht, (Hm r Hr0). simpl.
    rewrite <- andb_assoc. apply andb_comm. }
  split; [ exists sg, rng; auto | ].
  split; [ exact Hnonnull | ].
  split.
  - intros Hall. apply frame_eq; [ congruence | ].
    destruct (rows df) as [| r0 rs] eqn:Erows.
    + rewrite Ru, Re. reflexivity.
    + rewrite Hnonnull.
      * apply filter_all. intros r Hr0. rewrite Re' in Hr0.
        apply filter_In in Hr0 as [Hr0 _]. specialize (Hall r Hr0).
        destruct (field df "Department" r); simpl; congruence.
      * exists r0. split; [ left; reflexivity | apply Hall; left; reflexivity ].
  - intros Hall. apply frame_eq; [ congruence | ].
    assert (Esd' : sd' = []).
    { destruct (has_column df "Department") eqn:Hc.
      - rewrite (selected_present _ _ _ Hc) in Hsd'. simpl in Hsd'. inv_ok.
        destruct (unique (dropna (map (field df "Department") (rows df))))
          as [| v l] eqn:E; [ reflexivity | exfalso ].
        assert (Hv : In v (unique (dropna (map (field df "Department") (rows df)))))
          by (rewrite E; left; reflexivity).
        apply unique_acc_In, dropna_In in Hv as [Hv Hn].
        apply in_map_iff in Hv as (r & <- & Hr0). apply Hn, Hall, Hr0.
      - rewrite (selected_absent _ _ _ Hc) in Hsd'. congruence. }
    subst sd'. rewrite Ru, Re. reflexivity.
Qed.


Lemma emptied_genders
  (df : DataFrame) (w : Sidebar) (emptied unset : DataFrame) :
  filtered_df df (with_genders w (Some [])) = Ok emptied ->
  filtered_df df (with_genders w None) = Ok unset ->
  (exists departments rng,
      selected_departments df w = Ok departments /\
      age_range df w = Ok rng /\
      rows emptied =
        filter (fun r => passes_isin df "Department" departments r &&
                         passes_age df rng r)
               (rows df)) /\
  ((exists r, In r (rows df) /\ field df "Gender" r <> NaN) ->
     rows unset =
       filter (fun r => negb (isnull (field df "Gender" r))) (rows emptied)) /\
  ((forall r, In r (rows df) -> field df "Gender" r <> NaN) ->
     unset = emptied) /\
  ((forall r, In r (rows df) -> field df "Gender" r = NaN) ->
     unset = emptied).
Proof.
  intros He Hu.
  apply filtered_df_ok in He as (sd & sg & rng & Hsd & Hsg & Hr & Se & Re).
  apply filtered_df_ok in Hu as (sd' & sg' & rng' & Hsd' & Hsg' & Hr' & Su & Ru).
  unfold selected_departments in *. simpl in Hsd, Hsd'.
  unfold age_range in *. simpl in Hr, Hr'.
  assert (sd' = sd) by congruence. assert (rng' = rng) by congruence.
  subst sd' rng'. clear Hsd' Hr'.
  unfold selected_genders in *. simpl in Hsg, Hsg'.
  assert (Esg : sg = []).
  { destruct (has_column df "Gender") eqn:Hc.
    - rewrite (selected_present _ _ _ Hc) in Hsg. simpl in Hsg. congruence.
    - rewrite (selected_absent _ _ _ Hc) in Hsg. congruence. }
  subst sg.
  assert (Re' : rows emptied =
    filter (fun r => passes_isin df "Department" sd r && passes_age df rng r)
           (rows df)).
  { rewrite Re. apply filter_ext. intros r.
    unfold passes_isin at 2. simpl. rewrite andb_true_r. reflexivity. }
  assert (Hnonnull : (exists r, In r (rows df) /\ field df "Gender" r <> NaN) ->
     rows unset =
       filter (fun r => negb (isnull (field df "Gender" r))) (rows emptied)).
  { intros (r0 & In0 & N0).
    assert (Hc : has_column df "Gender" = true).
    { unfold has_column, field in *.
      destruct (index_of "Gender" (columns df)); congruence. }
    rewrite (selected_present _ _ _ Hc) in Hsg'. simpl in Hsg'. inv_ok.
    set (col := map (field df "Gender") (rows df)) in *.
    assert (Hm : forall r, In r (rows df) ->
              mem (field df "Gender" r) (unique (dropna col)) =
              negb (isnull (field df "Gender" r))).
    { intros r Hr0. rewrite mem_unique, mem_dropna.
      unfold col. rewrite (mem_In _ _ (in_map _ _ _ Hr0)).
      apply andb_true_r. }
    assert (Ht : truthy (unique (dropna col)) = true).
    { specialize (Hm r0 In0).
      destruct (unique (dropna col)); [ | reflexivity ].
      simpl in Hm. destruct (field df "Gender" r0); simpl in Hm; congruence. }
    rewrite Ru, Re', filter_twice. apply filter_ext_in. intros r Hr0.
    unfold passes_isin at 2. rewrite Ht, (Hm r Hr0). simpl.
    destruct (passes_isin df "Department" sd r),
             (negb (isnull (field df "Gender" r))),
             (passes_age df rng r); reflexivity. }
  split; [ exists sd, rng; auto | ].
  split; [ exact Hnonnull | ].
  split.
  - intros Hall. apply frame_eq; [ congruence | ].
    destruct (rows df) as [| r0 rs] eqn:Erows.
    + rewrite Ru, Re. reflexivity.
    + rewrite Hnonnull.
      * apply filter_all. intros r Hr0. rewrite Re' in Hr0.
        apply filter_In in Hr0 as [Hr0 _]. specialize (Hall r Hr0).
        destruct (field df "Gender" r); simpl; congruence.
      * exists r0. split; [ left; reflexivity | apply Hall; left; reflexivity ].
  - intros Hall. apply frame_eq; [ congruence | ].
    assert (Esg' : sg' = []).
    { destruct (has_column df "Gender") eqn:Hc.
      - rewrite (selected_present _ _ _ Hc) in Hsg'. simpl in Hsg'. inv_ok.
        destruct (unique (dropna (map (field df "Gender") (rows df))))
          as [| v l] eqn:E; [ reflexivity | exfalso ].
        assert (Hv : In v (unique (dropna (map (field df "Gender") (rows df)))))
          by (rewrite E; left; reflexivity).
        apply unique_acc_In, dropna_In in Hv as [Hv Hn].
        apply in_map_iff in Hv as (r & <- & Hr0). apply Hn, Hall, Hr0.
      - rewrite (selected_absent _ _ _ Hc) in Hsg'. congruence. }
    subst sg'. rewrite Ru, Re. reflexivity.
Qed.

(** C1 (as the code has it): an inclusion set the caller empties does not
    select "no rows": lines 45 and 47 test the list for truth, so the
    field's predicate is switched off and the view is the input filtered
    by the other predicates only.  With the widget untouched the
    selection is every distinct non-missing value, which keeps exactly the
    rows whose value is present.  So the two views differ only by the rows
    whose value is missing, and coincide when no value is missing (or
    when all are).  This holds for the department selection (line 45) and
    for the gender selection (line 47). *)
Theorem empty_selection_switches_predicate_off
  (df : DataFrame) (w : Sidebar) (emptied unset : DataFrame) :
  (filtered_df df (with_departments w (Some [])) = Ok emptied ->
   filtered_df df (with_departments w None) = Ok unset ->
   (exists genders rng,
       selected_genders df w = Ok genders /\
       age_range df w = Ok rng /\
       rows emptied =
         filter (fun r => passes_isin df "Gender" genders r &&
                          passes_age df rng r)
                (rows df)) /\
   ((exists r, In r (rows df) /\ field df "Department" r <> NaN) ->
      rows unset =
        filter (fun r => negb (isnull (field df "Department" r)))
               (rows emptied)) /\
   ((forall r, In r (rows df) -> field df "Department" r <> NaN) ->
      unset = emptied) /\
   ((forall r, In r (rows df) -> field df "Department" r = NaN) ->
      unset = emptied)) /\
  (filtered_df df (with_genders w (Some [])) = Ok emptied ->
   filtered_df df (with_genders w None) = Ok unset ->
   (exists departments rng,
       selected_departments df w = Ok departments /\
       age_range df w = Ok rng /\
       rows emptied =
         filter (fun r => passes_isin df "Department" departments r &&
                          passes_age df rng r)
                (rows df)) /\
   ((exists r, In r (rows df) /\ field df "Gender" r <> NaN) ->
      rows unset =
        filter (fun r => negb (isnull (field df "Gender" r)))
               (rows emptied)) /\
   ((forall r, In r (rows df) -> field df "Gender" r <> NaN) ->
      unset = emptied) /\
   ((forall r, In r (rows df) -> field df "Gender" r = NaN) ->
      unset = emptied)).
Proof.
  split.
  - apply emptied_departments.
  - apply emptied_genders.
Qed.

Lemma empty_selection_witness :
  (exists r, In r (rows staff) /\ field staff "Department" r <> NaN) /\
  (exists r, In r (rows staff) /\ field staff "Gender" r <> NaN) /\
  (exists emptied unset,
     filtered_df staff (with_departments untouched (Some [])) = Ok emptied /\
     filtered_df staff (with_departments untouched None) = Ok unset /\
     rows unset =
       filter (fun r => negb (isnull (field staff "Department" r)))
              (rows emptied)) /\
  (exists emptied unset,
     filtered_df staff (with_genders untouched (Some [])) = Ok emptied /\
     filtered_df staff (with_genders untouched None) = Ok unset /\
     rows unset =
       filter (fun r => negb (isnull (field staff "Gender" r)))
              (rows emptied)).
Proof.
  assert (Hd : exists r, In r (rows staff) /\ field staff "Department" r <> NaN).
  { exists [Num 1; Str "Sales"; Str "Female"; Num 41; Str "Yes"].
    split; [ left; reflexivity | discriminate ]. }
  assert (Hg : exists r, In r (rows staff) /\ field staff "Gender" r <> NaN).
  { exists [Num 1; Str "Sales"; Str "Female"; Num 41; Str "Yes"].
    split; [ left; reflexivity | discriminate ]. }
  split; [ exact Hd | ]. split; [ exact Hg | ]. split.
  - eexists; eexists.
    split; [ reflexivity | split; [ reflexivity | ] ].
    exact (proj1 (proj2 (proj1 (empty_selection_switches_predicate_off
                                  staff untouched _ _) eq_refl eq_refl)) Hd).
  - eexists; eexists.
    split; [ reflexivity | split; [ reflexivity | ] ].
    exact (proj1 (proj2 (proj2 (empty_selection_switches_predicate_off
                                  staff untouched _ _) eq_refl eq_refl)) Hg).
Defined.

(** C1, as stated, fails: on a frame with two employees and no missing
    value, emptying the department selection keeps both rows (it does not
    select "no rows"), and the view equals the one of the untouched
    widget although the field has rows. *)
Lemma empty_selection_counterexample :
  rows two_clerks <> [] /\
  filtered_df two_clerks (with_departments untouched (Some [])) = Ok two_clerks /\
  filtered_df two_clerks (with_departments untouched None) = Ok two_clerks.
Proof. split; [ discriminate | split; reflexivity ]. Qed.

(* ------------------------------------------------------------------ *)

(** C2 (what the code does): line 40 reads [df['Age']] without the
    presence test that lines 28, 34 and 175 make, so on a frame without
    an age column the script stops with [KeyError: 'Age'] whatever the
    sidebar holds; no filtered view is produced. *)
Theorem age_absent_raises (df : DataFrame) (w : Sidebar) :
  has_column df "Age" = false ->
  filtered_df df w = Raise (KeyError "Age").
Proof.
  intros H. unfold filtered_df, selected_departments, selected_genders.
  destruct (selected_total df "Department" (department_pick w)) as (sd & -> & _).
  destruct (selected_total df "Gender" (gender_pick w)) as (sg & -> & _).
  simpl. unfold age_range. rewrite (age_absent _ H). reflexivity.
Qed.

Lemma age_absent_witness :
  has_column no_age "Age" = false /\
  filtered_df no_age untouched = Raise (KeyError "Age").
Proof.
  split; [ reflexivity | apply (age_absent_raises no_age untouched); reflexivity ].
Defined.

(* ------------------------------------------------------------------ *)

(** C3: whenever lines 44-49 produce a view, every row of the view is a
    row of the input that satisfies every active predicate (membership in
    each non-empty inclusion set, and [min <= age <= max] with both ends
    included), and no row of the input left out of the view satisfies
    them all. *)
Theorem filtered_view_sound_and_complete
  (df view : DataFrame) (departments genders : list value) (rng : Z * Z) :
  apply_filters df departments genders rng = Ok view ->
  (forall r, In r (rows view) ->
     In r (rows df) /\ satisfies df departments genders rng r) /\
  (forall r, In r (rows df) -> ~ In r (rows view) ->
     ~ satisfies df departments genders rng r).
Proof.
  intros H. apply apply_filters_ok in H as [_ R]. rewrite R. split.
  - intros r Hr. apply filter_In in Hr as [Hr Hp].
    split; [ exact Hr | apply passes_all_iff, Hp ].
  - intros r Hr Hout Hs. apply Hout, filter_In.
    split; [ exact Hr | apply passes_all_iff, Hs ].
Qed.

Lemma filtered_view_witness :
  exists view,
    apply_filters staff [Str "Sales"] [] (30, 45)%Z = Ok view /\
    rows view = [[Num 1; Str "Sales"; Str "Female"; Num 41; Str "Yes"];
                 [Num 5; Str "Sales"; NaN; Num 33; Str "No"]] /\
    (forall r, In r (rows view) ->
       In r (rows staff) /\ satisfies staff [Str "Sales"] [] (30, 45)%Z r) /\
    (forall r, In r (rows staff) -> ~ In r (rows view) ->
       ~ satisfies staff [Str "Sales"] [] (30, 45)%Z r).
Proof.
  eexists. split; [ reflexivity | ]. split; [ reflexivity | ].
  apply (filtered_view_sound_and_complete staff _ [Str "Sales"] [] (30, 45)%Z).
  reflexivity.
Defined.

(* ------------------------------------------------------------------ *)

(** C4: when a categorical filter column ([Department] or [Gender]) is
    absent from the frame, its selection is the empty list whatever the
    caller asks for, its stage of the filter block returns the frame
    unchanged without raising, the filtered view does not depend on what
    was asked for that field, and when the other two predicates let every
    row pass the view is the input itself (same rows, same count). *)
Theorem absent_field_leaves_view_unchanged
  (df : DataFrame) (w : Sidebar) (name : string) :
  has_column df name = false ->
  (forall pick, selected df name pick = Ok []) /\
  filter_isin df name [] = Ok df /\
  (name = "Department" ->
     (forall pick, filtered_df df (with_departments w pick) = filtered_df df w) /\
     (forall genders rng,
        selected_genders df w = Ok genders ->
        age_range df w = Ok rng ->
        (forall r, In r (rows df) ->
           passes_isin df "Gender" genders r = true /\
           passes_age df rng r = true) ->
        filtered_df df w = Ok df /\
        forall view, filtered_df df w = Ok view ->
                     List.length (rows view) = List.length (rows df))) /\
  (name = "Gender" ->
     (forall pick, filtered_df df (with_genders w pick) = filtered_df df w) /\
     (forall departments rng,
        selected_departments df w = Ok departments ->
        age_range df w = Ok rng ->
        (forall r, In r (rows df) ->
           passes_isin df "Department" departments r = true /\
           passes_age df rng r = true) ->
        filtered_df df w = Ok df /\
        forall view, filtered_df df w = Ok view ->
                     List.length (rows view) = List.length (rows df))).
Proof.
  intros Hc.
  split; [ intros pick; apply selected_absent, Hc | ].
  split; [ reflexivity | ].
  split; intros ->.
  - assert (Hsd : forall w', selected_departments df w' = Ok []).
    { intros w'. apply selected_absent, Hc. }
    split.
    + intros pick. unfold filtered_df. rewrite !Hsd. reflexivity.
    + intros sg rng Hsg Hr Hall.
      assert (E : filtered_df df w = Ok df).
      { unfold filtered_df. rewrite Hsd, Hsg, Hr. simpl.
        apply age_range_ok_bounds in Hr as (b & Hb).
        apply age_bounds_ok in Hb as Ha.
        assert (T : forallb (fun v => negb (is_text v))
                      (map (field df "Age") (rows df)) = true).
        { apply forallb_forall. intros v Hv.
          apply in_map_iff in Hv as (r & <- & Hr0).
          destruct (Hall r Hr0) as [_ Hp]. unfold passes_age in Hp.
          destruct (field df "Age" r); [ discriminate Hp | discriminate Hp | reflexivity ]. }
        unfold apply_filters. simpl.
        rewrite filter_isin_total
          by (intros E; destruct (selected_total df "Gender" (gender_pick w))
                as (sg' & Hsg' & Hg & _);
              unfold selected_genders in Hsg; assert (sg' = sg) by congruence;
              subst sg'; apply Hg, E).
        simpl. rewrite filter_age_total.
        - f_equal. apply frame_eq; [ reflexivity | ]. simpl.
          rewrite (filter_all (passes_isin df "Gender" sg))
            by (intros r Hr0; apply (Hall r Hr0)).
          apply filter_all. intros r Hr0. apply (Hall r Hr0).
        - exact Ha.
        - simpl. unfold field at 1, columns at 1. simpl.
          fold (columns df). fold (field df "Age").
          apply forallb_map_filter, T. }
      split; [ exact E | ]. intros view Hv. congruence.
  - assert (Hsg : forall w', selected_genders df w' = Ok []).
    { intros w'. apply selected_absent, Hc. }
    split.
    + intros pick. unfold filtered_df. rewrite !Hsg. reflexivity.
    + intros sd rng Hsd Hr Hall.
      assert (E : filtered_df df w = Ok df).
      { unfold filtered_df. rewrite Hsd, Hsg, Hr. simpl.
        apply age_range_ok_bounds in Hr as (b & Hb).
        apply age_bounds_ok in Hb as Ha.
        assert (T : forallb (fun v => negb (is_text v))
                      (map (field df "Age") (rows df)) = true).
        { apply forallb_forall. intros v Hv.
          apply in_map_iff in Hv as (r & <- & Hr0).
          destruct (Hall r Hr0) as [_ Hp]. unfold passes_age in Hp.
          destruct (field df "Age" r); [ discriminate Hp | discriminate Hp | reflexivity ]. }
        unfold apply_filters.
        rewrite filter_isin_total
          by (intros E; destruct (selected_total df "Department" (department_pick w))
                as (sd' & Hsd' & Hd & _);
              unfold selected_departments in Hsd; assert (sd' = sd) by congruence;
              subst sd'; apply Hd, E).
        simpl. rewrite filter_age_total.
        - f_equal. apply frame_eq; [ reflexivity | ]. simpl.
          rewrite (filter_all (passes_isin df "Department" sd))
            by (intros r Hr0; apply (Hall r Hr0)).
          apply filter_all. intros r Hr0. apply (Hall r Hr0).
        - exact Ha.
        - simpl. unfold field at 1, columns at 1. simpl.
          fold (columns df). fold (field df "Age").
          apply forallb_map_filter, T. }
      split; [ exact E | ]. intros view Hv. congruence.
Qed.

Lemma absent_field_witness :
  has_column ages "Department" = false /\
  filtered_df ages (with_departments untouched (Some [Str "Sales"])) = Ok ages.
Proof.
  split; [ reflexivity | ].
  destruct (absent_field_leaves_view_unchanged ages untouched "Department" eq_refl)
    as (_ & _ & HD & _).
  destruct (HD eq_refl) as [Hany Hfull].
  rewrite Hany.
  apply (Hfull [] (25, 40)%Z); [ reflexivity | reflexivity | ].
  intros r [<- | [<- | [<- | [<- | []]]]]; split; reflexivity.
Defined.

(* ------------------------------------------------------------------ *)

(** C9: the view lines 44-49 compute is a function of the frame and the
    filter values, and its rows are exactly the rows of the input that
    pass, in the order they had there (a subsequence of the input).  On
    ages [25, 30, 30, 40] the range [30, 30] returns the second and third
    rows, in that order. *)
Theorem filtering_preserves_order :
  (forall (df view : DataFrame) (departments genders : list value)
          (rng : Z * Z),
      apply_filters df departments genders rng = Ok view ->
      Subsequence (rows view) (rows df) /\
      rows view =
        filter (fun r => passes_isin df "Department" departments r &&
                         passes_isin df "Gender" genders r &&
                         passes_age df rng r)
               (rows df)) /\
  filtered_df ages (mkSidebar None None (Some (30, 30)%Z)) =
    Ok (mkFrame (schema ages) [[Num 2; Num 30]; [Num 3; Num 30]]).
Proof.
  split; [ | reflexivity ].
  intros df view sd sg rng H. apply apply_filters_ok in H as [_ R].
  split; [ rewrite R; apply filter_Subsequence | exact R ].
Qed.

Lemma filtering_preserves_order_witness :
  exists view,
    apply_filters staff [] [Str "Male"] (30, 50)%Z = Ok view /\
    rows view = [[Num 2; Str "Research"; Str "Male"; Num 49; Str "No"];
                 [Num 4; NaN; Str "Male"; Num 37; Str "Yes"]] /\
    Subsequence (rows view) (rows staff).
Proof.
  eexists. split; [ reflexivity | ]. split; [ reflexivity | ].
  apply (proj1 (proj1 filtering_preserves_order staff _ [] [Str "Male"]
                  (30, 50)%Z eq_refl)).
Defined.

(* ------------------------------------------------------------------ *)

(** C10: the options of a multiselect are the distinct values of the
    column after [dropna], whatever the widget returns is among them, and
    a missing cell is a member of no such list; so as soon as the
    selection for [Department] (or [Gender]) is non-empty - the default
    included - no row of the view has that field missing. *)
Theorem null_rows_fail_active_selection
  (df view : DataFrame) (w : Sidebar) :
  filtered_df df w = Ok view ->
  (forall name,
      has_column df name = true ->
      selected df name None =
        Ok (unique (dropna (map (field df name) (rows df))))) /\
  (forall name pick selection,
      selected df name pick = Ok selection -> ~ In NaN selection) /\
  (forall departments,
      selected_departments df w = Ok departments -> departments <> [] ->
      forall r, In r (rows view) -> field df "Department" r <> NaN) /\
  (forall genders,
      selected_genders df w = Ok genders -> genders <> [] ->
      forall r, In r (rows view) -> field df "Gender" r <> NaN).
Proof.
  intros H.
  assert (Hsel : forall name pick selection,
             selected df name pick = Ok selection -> mem NaN selection = false).
  { intros name pick sel Hs.
    destruct (selected_total df name pick) as (sel' & Hs' & _ & Hn). congruence. }
  apply filtered_df_ok in H as (sd & sg & rng & Hsd & Hsg & _ & _ & R).
  split; [ intros name Hc; apply (selected_present df name None Hc) | ].
  split.
  { intros name pick sel Hs Hin. apply mem_In in Hin.
    rewrite (Hsel _ _ _ Hs) in Hin. discriminate. }
  split.
  - intros sd' Hsd' Hne r Hr E.
    assert (sd' = sd) by congruence. subst sd'.
    rewrite R in Hr. apply filter_In in Hr as [_ Hp].
    apply passes_all_iff in Hp as (Hd & _). specialize (Hd Hne).
    rewrite E, (Hsel _ _ _ Hsd) in Hd. discriminate.
  - intros sg' Hsg' Hne r Hr E.
    assert (sg' = sg) by congruence. subst sg'.
    rewrite R in Hr. apply filter_In in Hr as [_ Hp].
    apply passes_all_iff in Hp as (_ & Hg & _). specialize (Hg Hne).
    rewrite E, (Hsel _ _ _ Hsg) in Hg. discriminate.
Qed.

Lemma null_rows_witness :
  exists view,
    filtered_df staff untouched = Ok view /\
    rows view = [[Num 1; Str "Sales"; Str "Female"; Num 41; Str "Yes"];
                 [Num 2; Str "Research"; Str "Male"; Num 49; Str "No"]] /\
    (forall r, In r (rows view) -> field staff "Department" r <> NaN) /\
    (forall r, In r (rows view) -> field staff "Gender" r <> NaN).
Proof.
  eexists. split; [ reflexivity | ]. split; [ reflexivity | ].
  destruct (null_rows_fail_active_selection staff _ untouched eq_refl)
    as (_ & _ & Hd & Hg).
  split.
  - apply (Hd [Str "Sales"; Str "Research"]); [ reflexivity | discriminate ].
  - apply (Hg [Str "Female"; Str "Male"]); [ reflexivity | discriminate ].
Defined.

(** ** Applying the filters twice *)

Lemma series_ge_no_text (s : list value) (n : Z) (m : list bool) :
  series_ge s n = Ok m -> forallb (fun v => negb (is_text v)) s = true.
Proof.
  unfold series_ge. revert m.
  induction s as [| v s IH]; simpl; intros m H; [ reflexivity | ].
  inv_ok. rewrite (IH _ Ha0). destruct v; simpl in *; inv_ok; reflexivity.
Qed.

Lemma filter_isin_has (fdf out : DataFrame) (name : string)
  (selection : list value) :
  filter_isin fdf name selection = Ok out ->
  truthy selection = true -> has_column fdf name = true.
Proof.
  unfold filter_isin. intros H T. rewrite T in H. inv_ok.
  destruct (has_column fdf name) eqn:E; [ reflexivity | ].
  rewrite (getitem_absent _ _ E) in Ha. discriminate.
Qed.

Lemma filter_age_has (fdf out : DataFrame) (rng : Z * Z) :
  filter_age fdf rng = Ok out ->
  has_column fdf "Age" = true /\
  forallb (fun v => negb (is_text v)) (map (field fdf "Age") (rows fdf)) = true.
Proof.
  unfold filter_age. intros H. inv_ok.
  destruct (has_column fdf "Age") eqn:E.
  - split; [ reflexivity | ].
    apply getitem_ok in Ha. subst a. apply (series_ge_no_text _ _ _ Ha0).
  - rewrite (getitem_absent _ _ E) in Ha. discriminate.
Qed.

Lemma filter_idempotent {A : Type} (p : A -> bool) (l : list A) :
  filter p (filter p l) = filter p l.
Proof.
  apply filter_all. intros x Hx. apply filter_In in Hx. apply Hx.
Qed.

Lemma passes_isin_schema (df df' : DataFrame) (name : string)
  (selection : list value) (r : row) :
  schema df' = schema df ->
  passes_isin df' name selection r = passes_isin df name selection r.
Proof. intros S. unfold passes_isin. rewrite (field_schema _ _ _ _ S). reflexivity. Qed.

Lemma passes_age_schema (df df' : DataFrame) (rng : Z * Z) (r : row) :
  schema df' = schema df -> passes_age df' rng r = passes_age df rng r.
Proof. intros S. unfold passes_age. rewrite (field_schema _ _ _ _ S). reflexivity. Qed.

(** Filtering is idempotent: lines 44-49 applied to their own result,
    with the same selections and range, return it unchanged. *)
Theorem filtering_is_idempotent
  (df view : DataFrame) (departments genders : list value) (rng : Z * Z) :
  apply_filters df departments genders rng = Ok view ->
  apply_filters view departments genders rng = Ok view.
Proof.
  intros H. pose proof (apply_filters_ok _ _ _ _ _ H) as [S R].
  unfold apply_filters in H. inv_ok.
  pose proof (filter_isin_ok _ _ _ _ Ha) as [S1 R1].
  pose proof (filter_isin_ok _ _ _ _ Ha0) as [S2 R2].
  pose proof (filter_age_ok _ _ _ H) as [S3 R3].
  pose proof (filter_age_has _ _ _ H) as [HA T].
  assert (Sa : schema view = schema a) by congruence.
  set (P := fun r => passes_isin df "Department" departments r &&
                     passes_isin df "Gender" genders r &&
                     passes_age df rng r) in *.
  assert (Hall : forall r, In r (rows view) -> P r = true).
  { intros r Hr. rewrite R in Hr. apply filter_In in Hr. apply Hr. }
  unfold apply_filters.
  rewrite filter_isin_total.
  2:{ intros E. rewrite (has_column_schema _ _ _ S).
      apply (filter_isin_has _ _ _ _ Ha E). }
  simpl. rewrite filter_isin_total.
  2:{ intros E. change (has_column view "Gender" = true).
      rewrite (has_column_schema a view "Gender" Sa).
      apply (filter_isin_has _ _ _ _ Ha0 E). }
  simpl. rewrite filter_age_total.
  - f_equal. apply frame_eq; [ reflexivity | ]. simpl.
    rewrite !filter_twice. apply filter_all. intros r Hr.
    specialize (Hall r Hr). unfold P in Hall.
    repeat match goal with
    | |- context [passes_isin ?f ?n ?l r] =>
        lazymatch f with
        | df => fail
        | _ => rewrite (passes_isin_schema df f n l r S)
        end
    | |- context [passes_age ?f rng r] =>
        lazymatch f with
        | df => fail
        | _ => rewrite (passes_age_schema df f rng r S)
        end
    end.
    rewrite andb_assoc. exact Hall.
  - change (has_column view "Age" = true).
    rewrite (has_column_schema a0 view "Age" S3). exact HA.
  - simpl. unfold field at 1, columns at 1. simpl.
    fold (columns view). fold (field view "Age").
    apply forallb_map_filter, forallb_map_filter.
    rewrite R3. rewrite (map_ext _ (field a0 "Age")).
    + apply forallb_map_filter, T.
    + intros r. apply field_schema, S3.
Qed.

Lemma filtering_is_idempotent_witness :
  exists view,
    apply_filters staff [Str "Sales"] [] (30, 45)%Z = Ok view /\
    apply_filters view [Str "Sales"] [] (30, 45)%Z = Ok view.
Proof.
  eexists. split; [ reflexivity | ].
  apply (filtering_is_idempotent staff _ [Str "Sales"] [] (30, 45)%Z eq_refl).
Defined.

(** The view keeps the columns and dtypes of the input and never has
    more rows; the input frame itself is not changed (a new frame is
    returned). *)
Theorem view_is_a_subframe
  (df view : DataFrame) (departments genders : list value) (rng : Z * Z) :
  apply_filters df departments genders rng = Ok view ->
  schema view = schema df /\
  (List.length (rows view) <= List.length (rows df))%nat /\
  forall r, In r (rows view) -> In r (rows df).
Proof.
  intros H. apply apply_filters_ok in H as [S R].
  split; [ exact S | ]. rewrite R. split.
  - apply filter_length_le.
  - intros r Hr. apply filter_In in Hr. apply Hr.
Qed.

Lemma view_is_a_subframe_witness :
  exists view,
    apply_filters staff [] [Str "Male"] (30, 50)%Z = Ok view /\
    schema view = schema staff /\
    (List.length (rows view) <= 5)%nat.
Proof.
  eexists. split; [ reflexivity | ].
  destruct (view_is_a_subframe staff _ [] [Str "Male"] (30, 50)%Z eq_refl)
    as (S & L & _).
  split; [ exact S | exact L ].
Defined.

(* ================================================================== *)
(** * Properties of the attrition rate tables *)

Lemma insert_sorted_In (v x : value) (l : list value) :
  In x (insert_sorted v l) <-> x = v \/ In x l.
Proof.
  induction l as [| y l IH]; simpl.
  - intuition congruence.
  - destruct (value_leb v y); simpl; [ intuition congruence | ].
    rewrite IH. intuition congruence.
Qed.

Lemma sort_values_In (x : value) (l : list value) :
  In x (sort_values l) <-> In x l.
Proof.
  induction l as [| y l IH]; simpl; [ tauto | ].
  rewrite insert_sorted_In, IH. intuition congruence.
Qed.

Lemma labels_In (x : value) (s : list value) : In x (labels s) -> In x s.
Proof. unfold labels. rewrite sort_values_In. apply unique_acc_In. Qed.

Lemma mem_sort_values (v : value) (l : list value) :
  mem v (sort_values l) = mem v l.
Proof.
  apply eq_true_iff_eq. rewrite !mem_true.
  split; intros (x & Hx & E); exists x; (split; [ | exact E ]);
    apply sort_values_In; exact Hx.
Qed.

Lemma mem_labels (v : value) (s : list value) : mem v (labels s) = mem v s.
Proof. unfold labels. rewrite mem_sort_values. apply mem_unique. Qed.

Lemma combine_map {A B C : Type} (f : A -> B) (g : A -> C) (l : list A) :
  combine (map f l) (map g l) = map (fun x => (f x, g x)) l.
Proof. induction l as [| x l IH]; simpl; [ reflexivity | rewrite IH; reflexivity ]. Qed.

(** A complete pair comes from a row with both cells present. *)
Lemma complete_pairs_In (fdf : DataFrame) (name other : string)
  (c a : value) :
  In (c, a) (complete_pairs (map (field fdf name) (rows fdf))
                            (map (field fdf other) (rows fdf))) <->
  exists r, In r (rows fdf) /\ field fdf name r = c /\ field fdf other r = a /\
            c <> NaN /\ a <> NaN.
Proof.
  unfold complete_pairs. rewrite combine_map, filter_In, in_map_iff. simpl.
  rewrite andb_true_iff, !negb_true_iff. split.
  - intros ((r & E & Hr) & Hc & Ha). injection E as <- <-.
    exists r. repeat split; try assumption.
    + intros E. rewrite E in Hc. discriminate.
    + intros E. rewrite E in Ha. discriminate.
  - intros (r & Hr & <- & <- & Hc & Ha). split.
    + exists r. split; [ reflexivity | exact Hr ].
    + split; [ destruct (field fdf name r) | destruct (field fdf other r) ];
        simpl; congruence.
Qed.

Lemma count_pairs_nonneg (ps : list (value * value)) (c a : value) :
  (0 <= count_pairs ps c a)%Z.
Proof. unfold count_pairs. lia. Qed.

Lemma count_pairs_pos (ps : list (value * value)) (c a c' a' : value) :
  In (c, a) ps -> value_eqb c c' = true -> value_eqb a a' = true ->
  (0 < count_pairs ps c' a')%Z.
Proof.
  intros H Ec Ea. unfold count_pairs.
  assert (Hin : In (c, a) (filter (same_pair c' a') ps)).
  { apply filter_In. split; [ exact H | ]. unfold same_pair. simpl.
    rewrite Ec, Ea. reflexivity. }
  destruct (filter (same_pair c' a') ps); [ destruct Hin | simpl; lia ].
Qed.

Lemma row_sum_nonneg (ps : list (value * value)) (c : value) (l : list value) :
  (0 <= row_sum (map (fun a => (a, count_pairs ps c a)) l))%Z.
Proof.
  unfold row_sum. induction l as [| a l IH]; simpl; [ lia | ].
  pose proof (count_pairs_nonneg ps c a). lia.
Qed.

Lemma row_sum_pos (ps : list (value * value)) (c a : value) (l : list value) :
  In a l -> (0 < count_pairs ps c a)%Z ->
  (0 < row_sum (map (fun a => (a, count_pairs ps c a)) l))%Z.
Proof.
  unfold row_sum. induction l as [| x l IH]; simpl; intros Hin Hpos; [ tauto | ].
  destruct Hin as [-> | Hin].
  - pose proof (row_sum_nonneg ps c l). unfold row_sum in *. lia.
  - pose proof (count_pairs_nonneg ps c x). specialize (IH Hin Hpos). lia.
Qed.

(** Every row label of a count table has a positive row sum: the label
    was read off a complete pair, and that pair is counted under the
    column label that represents its second component. *)
Lemma crosstab_row_sum_pos (index cols : list value) (c : value)
  (cells : list (value * Z)) :
  In (c, cells) (crosstab index cols) -> (0 < row_sum cells)%Z.
Proof.
  unfold crosstab. set (ps := complete_pairs index cols).
  intros H. apply in_map_iff in H as (c' & E & Hc). injection E as -> <-.
  apply labels_In, in_map_iff in Hc as ((c0 & a0) & E & Hp). simpl in E. subst c0.
  assert (Ha : mem a0 (labels (map snd ps)) = true).
  { rewrite mem_labels. apply mem_In. apply (in_map snd) in Hp. exact Hp. }
  apply mem_true in Ha as (a' & Ha' & Ea).
  apply row_sum_pos with a'; [ exact Ha' | ].
  apply count_pairs_pos with c a0; [ exact Hp | apply value_eqb_refl | exact Ea ].
Qed.

Lemma percent_sum_normalized (cells : list (value * Z)) (total : Z) :
  percent_sum
    (map (fun ax => (fst ax, snd ax * 100))
       (map (fun an => (fst an, inject_Z (snd an) / inject_Z total)) cells))
  == inject_Z (row_sum cells) / inject_Z total * 100.
Proof.
  unfold percent_sum, row_sum.
  induction cells as [| [a n] cells IH]; simpl.
  - unfold Qdiv. ring.
  - rewrite IH, inject_Z_plus. unfold Qdiv. ring.
Qed.

Lemma table_rows (index cols : list value) (c : value)
  (cells : list (value * Q)) :
  In (c, cells) (scale 100 (normalize_index (crosstab index cols))) ->
  exists counts,
    In (c, counts) (crosstab index cols) /\
    cells =
      map (fun ax => (fst ax, snd ax * 100))
        (map (fun an => (fst an, inject_Z (snd an) / inject_Z (row_sum counts)))
             counts).
Proof.
  unfold scale, normalize_index. rewrite map_map. intros H.
  apply in_map_iff in H as ((c' & counts) & E & Hin). simpl in E.
  injection E as -> <-. exists counts. split; [ exact Hin | reflexivity ].
Qed.

(** Row-normalized percentages of a row add up to exactly 100. *)
Lemma table_row_sums_to_100 (index cols : list value) (c : value)
  (cells : list (value * Q)) :
  In (c, cells) (scale 100 (normalize_index (crosstab index cols))) ->
  percent_sum cells == 100.
Proof.
  intros H. apply table_rows in H as (counts & Hin & ->).
  rewrite percent_sum_normalized.
  apply crosstab_row_sum_pos in Hin.
  assert (Hne : ~ inject_Z (row_sum counts) == 0).
  { unfold Qeq. simpl. lia. }
  field. exact Hne.
Qed.

Lemma table_labels (index cols : list value) (c : value)
  (cells : list (value * Q)) :
  In (c, cells) (scale 100 (normalize_index (crosstab index cols))) ->
  exists a, In (c, a) (complete_pairs index cols).
Proof.
  intros H. apply table_rows in H as (counts & Hin & _).
  unfold crosstab in Hin. apply in_map_iff in Hin as (c' & E & Hc).
  injection E as -> _.
  apply labels_In, in_map_iff in Hc as ((c0 & a0) & E & Hp). simpl in E. subst c0.
  exists a0. exact Hp.
Qed.

Lemma table_has_label (index cols : list value) (c a : value) :
  In (c, a) (complete_pairs index cols) ->
  mem c (map fst (scale 100 (normalize_index (crosstab index cols)))) = true.
Proof.
  intros H. unfold scale, normalize_index, crosstab.
  rewrite !map_map. simpl. rewrite map_id, mem_labels.
  apply mem_In. apply (in_map fst) in H. exact H.
Qed.

Lemma crossTabRate_ok (fdf : DataFrame) (name : string) (t : table Q) :
  crossTabRate fdf name = Ok t ->
  t = scale 100 (normalize_index
        (crosstab (map (field fdf name) (rows fdf))
                  (map (field fdf "Attrition") (rows fdf)))).
Proof.
  unfold crossTabRate. intros H. inv_ok.
  apply getitem_ok in Ha, Ha0. subst. reflexivity.
Qed.

Lemma crossTabRate_total (fdf : DataFrame) (name : string) :
  has_column fdf name = true -> has_column fdf "Attrition" = true ->
  exists t, crossTabRate fdf name = Ok t.
Proof.
  intros H1 H2. unfold crossTabRate.
  rewrite (getitem_has _ _ H1), (getitem_has _ _ H2). simpl. eauto.
Qed.

(** On a view without rows the table is empty. *)
Lemma crossTabRate_no_rows (fdf : DataFrame) (name : string) :
  rows fdf = [] ->
  has_column fdf name = true -> has_column fdf "Attrition" = true ->
  crossTabRate fdf name = Ok [].
Proof.
  intros R H1 H2. unfold crossTabRate.
  rewrite (getitem_has _ _ H1), (getitem_has _ _ H2), R. reflexivity.
Qed.

(* ================================================================== *)
(** * Properties of the correlation matrix *)

Lemma pairwise_swap (xs ys : list value) :
  pairwise ys xs = map swap (pairwise xs ys).
Proof.
  revert ys. induction xs as [| x xs IH]; intros [| y ys]; simpl;
    try reflexivity.
  rewrite IH. destruct (real_of x), (real_of y); reflexivity.
Qed.

Lemma pairwise_self (xs : list value) :
  map diag (pairwise xs xs) = pairwise xs xs.
Proof.
  induction xs as [| x xs IH]; simpl; [ reflexivity | ].
  destruct (real_of x); simpl; [ rewrite IH; reflexivity | exact IH ].
Qed.

Lemma swap_swap (ps : list (R * R)) : map swap (map swap ps) = ps.
Proof.
  rewrite map_map. rewrite <- (map_id ps) at 2. apply map_ext.
  intros [a b]; reflexivity.
Qed.

Lemma swap_diag (ps : list (R * R)) : map swap (map diag ps) = map diag ps.
Proof. rewrite map_map. apply map_ext. intros [a b]; reflexivity. Qed.

Lemma swap_diag_eq (ps : list (R * R)) :
  map diag ps = ps -> map diag (map swap ps) = ps.
Proof. intros D. rewrite <- D at 1. rewrite swap_diag. congruence. Qed.

Lemma co_moment_swap (ps : list (R * R)) :
  co_moment (map swap ps) = co_moment ps.
Proof.
  unfold co_moment. rewrite !map_map. simpl.
  f_equal. apply map_ext. intros [a b]. simpl. apply Rmult_comm.
Qed.

Lemma Rsum_squares_nonneg (m : R) (l : list R) :
  (0 <= Rsum (map (fun x => (x - m) * (x - m)) l))%R.
Proof.
  induction l as [| x l IH]; simpl; [ lra | ].
  pose proof (Rle_0_sqr (x - m)) as H. unfold Rsqr in H. lra.
Qed.

Lemma co_moment_diag_nonneg (ps : list (R * R)) :
  (0 <= co_moment (map diag ps))%R.
Proof.
  unfold co_moment. rewrite !map_map. simpl.
  rewrite <- (map_map fst (fun x => ((x - mean (map fst ps)) * (x - mean (map fst ps)))%R)).
  apply Rsum_squares_nonneg.
Qed.

Lemma coefficient_swap (ps : list (R * R)) :
  coefficient (map swap ps) = coefficient ps.
Proof.
  unfold coefficient. rewrite swap_swap, co_moment_swap.
  rewrite (Rmult_comm (co_moment (map diag (map swap ps)))). reflexivity.
Qed.

(** The Pearson coefficient does not depend on the order of its two
    columns. *)
Lemma pearson_sym (xs ys : list value) : pearson xs ys = pearson ys xs.
Proof.
  unfold pearson. rewrite (pairwise_swap xs ys).
  destruct (pairwise xs ys) as [| p ps]; [ reflexivity | ].
  change (coefficient (p :: ps) = coefficient (map swap (p :: ps))).
  symmetry. apply coefficient_swap.
Qed.

Lemma coefficient_diag (ps : list (R * R)) :
  map diag ps = ps -> co_moment ps <> 0%R -> coefficient ps = Some 1%R.
Proof.
  intros D HS. unfold coefficient. rewrite swap_diag_eq, D by exact D.
  pose proof (co_moment_diag_nonneg ps) as Hpos. rewrite D in Hpos.
  rewrite sqrt_square by exact Hpos.
  destruct (Req_EM_T (co_moment ps) 0); [ contradiction | ].
  f_equal. field. exact HS.
Qed.

(** A column with non-zero variance correlates 1 with itself. *)
Lemma pearson_self (xs : list value) (v : R) :
  variance xs = Some v -> v <> 0%R -> pearson xs xs = Some 1%R.
Proof.
  unfold variance, pearson. pose proof (pairwise_self xs) as D.
  destruct (pairwise xs xs) as [| p ps]; [ discriminate | ].
  destruct (1 <? List.length (p :: ps))%nat; [ | discriminate ].
  intros Hv Hne. injection Hv as <-.
  apply coefficient_diag; [ exact D | ].
  intros HS. apply Hne. rewrite HS. unfold Rdiv. apply Rmult_0_l.
Qed.

Lemma pearson_no_rows (xs ys : list value) : xs = [] -> pearson xs ys = None.
Proof. intros ->. reflexivity. Qed.

Lemma nth_map_some {A B : Type} (f : A -> B) (l : list A) (i : nat)
  (a : A) (d : B) :
  nth_error l i = Some a -> nth i (map f l) d = f a.
Proof.
  revert i. induction l as [| x l IH]; intros [| i]; simpl; try discriminate.
  - intros H. injection H as ->. reflexivity.
  - apply IH.
Qed.

Lemma nth_map_none {A B : Type} (f : A -> B) (l : list A) (i : nat) (d : B) :
  nth_error l i = None -> nth i (map f l) d = d.
Proof.
  revert i. induction l as [| x l IH]; intros [| i]; simpl;
    try discriminate; try reflexivity.
  apply IH.
Qed.

(** An entry of the matrix in terms of the two column names. *)
Lemma entry_corr (fdf : DataFrame) (names : list string) (i j : nat) :
  entry (corr fdf names) i j =
  match nth_error names i, nth_error names j with
  | Some a, Some b => pearson (column fdf a) (column fdf b)
  | _, _ => None
  end.
Proof.
  unfold entry, corr.
  destruct (nth_error names i) as [a |] eqn:Ei.
  - rewrite (nth_map_some _ _ _ _ _ Ei).
    destruct (nth_error names j) as [b |] eqn:Ej.
    + apply (nth_map_some (fun b => pearson (column fdf a) (column fdf b))
               _ _ _ _ Ej).
    + apply (nth_map_none (fun b => pearson (column fdf a) (column fdf b))
               _ _ _ Ej).
  - rewrite (nth_map_none _ _ _ _ Ei). destruct j; reflexivity.
Qed.

Lemma entry_sym (fdf : DataFrame) (names : list string) (i j : nat) :
  entry (corr fdf names) i j = entry (corr fdf names) j i.
Proof.
  rewrite !entry_corr.
  destruct (nth_error names i), (nth_error names j); try reflexivity.
  apply pearson_sym.
Qed.

Lemma column_no_rows (fdf : DataFrame) (name : string) :
  rows fdf = [] -> column fdf name = [].
Proof.
  intros R. unfold column, getitem.
  destruct (index_of name (columns fdf)); [ rewrite R | ]; reflexivity.
Qed.

Lemma entry_no_rows (fdf : DataFrame) (names : list string) (i j : nat) :
  rows fdf = [] -> entry (corr fdf names) i j = None.
Proof.
  intros R. rewrite entry_corr.
  destruct (nth_error names i), (nth_error names j); try reflexivity.
  apply pearson_no_rows, column_no_rows, R.
Qed.

(* ================================================================== *)
(** * Claims about the derived tables *)

(** C5: whenever [crossTabRate] returns a table, the percentages of each
    of its categories add up to 100 (exactly, so within the 1e-6 of the
    spec); a category is in the table only if some row of the view has it
    together with an attrition value, so a category without rows is left
    out, and every category that has such a row is in the table; the
    table exists as soon as both columns do; and on the five-row frame it
    is the mapping of the scenario. *)
Theorem crossTabRate_row_normalized :
  (forall (fdf : DataFrame) (name : string) (t : table Q),
      crossTabRate fdf name = Ok t ->
      (forall c cells, In (c, cells) t ->
         Qabs (percent_sum cells - 100) <= 1 # 1000000 /\
         c <> NaN /\
         exists r, In r (rows fdf) /\ field fdf name r = c /\
                   field fdf "Attrition" r <> NaN) /\
      (forall r, In r (rows fdf) ->
         field fdf name r <> NaN -> field fdf "Attrition" r <> NaN ->
         mem (field fdf name r) (map fst t) = true)) /\
  (forall (fdf : DataFrame) (name : string),
      has_column fdf name = true -> has_column fdf "Attrition" = true ->
      exists t, crossTabRate fdf name = Ok t) /\
  (exists t, crossTabRate five "Department" = Ok t /\
             same_mapping t five_rates = true).
Proof.
  split; [ | split ].
  - intros fdf name t H. apply crossTabRate_ok in H. subst t. split.
    + intros c cells Hin. split; [ | ].
      * rewrite (table_row_sums_to_100 _ _ _ _ Hin).
        vm_compute. discriminate.
      * apply table_labels in Hin as (a & Hp).
        apply complete_pairs_In in Hp as (r & Hr & Hc & Ha & Nc & Na).
        split; [ exact Nc | ]. exists r. repeat split; congruence.
    + intros r Hr Nc Na.
      apply table_has_label with (field fdf "Attrition" r).
      apply complete_pairs_In. exists r. repeat split; assumption.
  - apply crossTabRate_total.
  - eexists. split; [ reflexivity | vm_compute; reflexivity ].
Qed.

Lemma crossTabRate_witness :
  exists t,
    crossTabRate staff "Department" = Ok t /\
    forall c cells, In (c, cells) t ->
      Qabs (percent_sum cells - 100) <= 1 # 1000000.
Proof.
  eexists. split; [ reflexivity | ].
  intros c cells Hin.
  apply (proj1 (proj1 crossTabRate_row_normalized staff "Department" _ eq_refl)
           c cells Hin).
Defined.

(* ------------------------------------------------------------------ *)

(** C6 (numbers as reals): lines 111-113 compute no matrix when the view
    has fewer than two numeric columns; when they compute one, it is
    square over the numeric columns, equal to its transpose, and its
    diagonal entry is 1 for every numeric column whose variance is
    defined and not zero. *)
Theorem correlation_matrix_symmetric (fdf : DataFrame) :
  ((List.length (numeric_cols fdf) < 2)%nat ->
     correlation_heatmap fdf = None) /\
  (forall m, correlation_heatmap fdf = Some m ->
     (2 <= List.length (numeric_cols fdf))%nat /\
     List.length m = List.length (numeric_cols fdf) /\
     (forall i j, entry m i j = entry m j i) /\
     (forall i name v,
        nth_error (numeric_cols fdf) i = Some name ->
        variance (column fdf name) = Some v -> v <> 0%R ->
        entry m i i = Some 1%R)).
Proof.
  unfold correlation_heatmap.
  destruct (1 <? List.length (numeric_cols fdf))%nat eqn:E.
  - apply Nat.ltb_lt in E. split; [ lia | ].
    intros m H. injection H as <-.
    split; [ lia | ].
    split; [ unfold corr; apply length_map | ].
    split; [ intros i j; apply entry_sym | ].
    intros i name v Hi Hv Hne. rewrite entry_corr, Hi.
    apply (pearson_self _ v Hv Hne).
  - split; [ reflexivity | discriminate ].
Qed.

Lemma correlation_matrix_witness :
  exists m, correlation_heatmap pay = Some m /\ entry m 1 1 = Some 1%R.
Proof.
  eexists. split; [ reflexivity | ].
  destruct (correlation_matrix_symmetric pay) as [_ H].
  destruct (H _ eq_refl) as (_ & _ & _ & Hdiag).
  apply (Hdiag 1%nat "MonthlyIncome" 2000000%R).
  - reflexivity.
  - unfold variance. simpl. f_equal. unfold co_moment, mean, Q2R. simpl. field.
  - lra.
Defined.

(* ------------------------------------------------------------------ *)

(** C8 (what the code does): on a frame that has an age column and no
    rows, line 40 takes [int] of the NaN that [min] returns and the script
    stops with a [ValueError], whatever the sidebar holds: no view, empty
    or not, is produced.  The lines around it do handle such a frame: both
    selections are empty lists (lines 28-38), and lines 44-49 would return
    the frame as it is. *)
Theorem empty_dataset_stops_the_script (df : DataFrame) (w : Sidebar) :
  has_column df "Age" = true ->
  rows df = [] ->
  filtered_df df w = Raise ValueError /\
  selected_departments df w = Ok [] /\
  selected_genders df w = Ok [] /\
  (forall rng, apply_filters df [] [] rng = Ok df).
Proof.
  intros Ha R.
  assert (Hsel : forall name pick, selected df name pick = Ok []).
  { intros name pick. unfold selected, getitem, has_column.
    destruct (index_of name (columns df)); [ | reflexivity ].
    rewrite R. simpl. destruct pick as [l |]; simpl; [ | reflexivity ].
    f_equal. induction l as [| v l IH]; [ reflexivity | exact IH ]. }
  assert (Hage : age_range df w = Raise ValueError).
  { unfold age_range, age_bounds. rewrite (getitem_has _ _ Ha), R. reflexivity. }
  split; [ | split; [ apply Hsel | split; [ apply Hsel | ] ] ].
  - unfold filtered_df, selected_departments, selected_genders.
    rewrite !Hsel. simpl. rewrite Hage. reflexivity.
  - intros rng. unfold apply_filters. simpl.
    unfold filter_age. rewrite (getitem_has _ _ Ha), R. simpl.
    f_equal. apply frame_eq; [ reflexivity | ]. simpl. rewrite R. reflexivity.
Qed.

Lemma empty_dataset_witness :
  filtered_df header_only untouched = Raise ValueError /\
  filtered_df header_only sales_men = Raise ValueError /\
  apply_filters header_only [] [] (18, 60)%Z = Ok header_only.
Proof.
  split; [ | split ].
  - apply (empty_dataset_stops_the_script header_only untouched); reflexivity.
  - apply (empty_dataset_stops_the_script header_only sales_men); reflexivity.
  - apply (empty_dataset_stops_the_script header_only untouched); reflexivity.
Defined.

(* ------------------------------------------------------------------ *)

(** Once the sidebar has been built (lines 28-41) on a frame whose age
    column holds no text, lines 44-49 produce a view for every state of
    the sidebar, also one that excludes every row; on a view without rows
    each attrition table is either not made (its column is absent) or the
    empty table, and the correlation block is either skipped or yields a
    matrix all of whose entries are undefined. *)
Theorem empty_view_is_valid (df : DataFrame) (w : Sidebar) (rng : Z * Z) :
  age_range df w = Ok rng ->
  text_free df "Age" = true ->
  exists view,
    filtered_df df w = Ok view /\
    (rows view = [] ->
     (has_column df "Attrition" = true ->
      forall name, rate_table view name = None \/
                   rate_table view name = Some (Ok [])) /\
     (correlation_heatmap view = None \/
      exists m, correlation_heatmap view = Some m /\
                forall i j, entry m i j = None)).
Proof.
  intros Hr Ht. destruct (filtered_df_total df w rng Hr Ht) as (view & Hv).
  exists view. split; [ exact Hv | ]. intros R.
  apply filtered_df_ok in Hv as (_ & _ & _ & _ & _ & _ & S & _).
  split.
  - intros Ha name. unfold rate_table.
    destruct (has_column view name) eqn:Hc; [ right | left; reflexivity ].
    f_equal. apply crossTabRate_no_rows; [ exact R | exact Hc | ].
    rewrite (has_column_schema _ _ _ S). exact Ha.
  - unfold correlation_heatmap.
    destruct (1 <? List.length (numeric_cols view))%nat;
      [ right | left; reflexivity ].
    eexists. split; [ reflexivity | ].
    intros i j. apply entry_no_rows, R.
Qed.

Lemma empty_view_witness :
  exists view,
    filtered_df staff sales_men = Ok view /\
    rows view = [] /\
    table1 view = Some (Ok []) /\
    exists m, correlation_heatmap view = Some m /\
              forall i j, entry m i j = None.
Proof.
  destruct (empty_view_is_valid staff sales_men (33, 49)%Z eq_refl eq_refl)
    as (view & Hv & H).
  exists view. split; [ exact Hv | ].
  assert (E : view = mkFrame (schema staff) []).
  { change (filtered_df staff sales_men)
      with (Ok (mkFrame (schema staff) [])) in Hv.
    injection Hv as <-. reflexivity. }
  subst view. split; [ reflexivity | ].
  destruct (H eq_refl) as [Ht Hc].
  split.
  - destruct (Ht eq_refl "Department") as [Hn | Hs]; [ discriminate Hn | exact Hs ].
  - destruct Hc as [Hn | Hm]; [ discriminate Hn | exact Hm ].
Defined.

(* ================================================================== *)
(** * Export and reload *)

Lemma append_assoc (s t u : string) :
  ((s ++ t) ++ u = s ++ (t ++ u))%string.
Proof. induction s as [| c s IH]; simpl; [ reflexivity | rewrite IH; reflexivity ]. Qed.

Lemma tokenize_bytes_app (p : parser) (s t : string) :
  tokenize_bytes p (s ++ t) = tokenize_bytes (tokenize_bytes p s) t.
Proof.
  revert p. induction s as [| c s IH]; intros p; simpl; [ reflexivity | ].
  apply IH.
Qed.

Lemma string_of_rev_string (s : string) :
  string_of_list_ascii (rev (rev_string s ++ [])) = s.
Proof.
  unfold rev_string. rewrite app_nil_r, rev_involutive.
  apply string_of_list_ascii_of_string.
Qed.

Lemma writable_plain (s : string) :
  writable s = true -> any special s = false -> any is_cr s = false.
Proof.
  unfold writable. intros H Hsp.
  rewrite Hsp, orb_false_r in H. apply negb_true_iff, H.
Qed.

Lemma rev_string_cons (c : ascii) (s : string) (cs : list ascii) :
  rev_string (String c s) ++ cs = rev_string s ++ c :: cs.
Proof. unfold rev_string. simpl. rewrite <- app_assoc. reflexivity. Qed.

Lemma ends_field_false (c : ascii) :
  ends_field c = false ->
  Ascii.eqb c LF = false /\ Ascii.eqb c CR = false /\ Ascii.eqb c COMMA = false.
Proof.
  unfold ends_field. intros H.
  apply orb_false_iff in H as [H H3]. apply orb_false_iff in H as [H1 H2].
  auto.
Qed.

(** Inside an unquoted field ordinary characters are pushed. *)
Lemma in_field_pushes (s : string) (cs : list ascii) (fs : list string)
  (rs : list (list string)) :
  any ends_field s = false ->
  tokenize_bytes (mkParser IN_FIELD cs fs rs) s =
  mkParser IN_FIELD (rev_string s ++ cs) fs rs.
Proof.
  revert cs. induction s as [| c s IH]; intros cs H; simpl in *; [ reflexivity | ].
  apply orb_false_iff in H as [Hc Hs].
  apply ends_field_false in Hc as (H1 & H2 & H3).
  unfold step, in_field. simpl. rewrite H1, H2, H3.
  unfold PUSH_CHAR. simpl. rewrite (IH _ Hs). rewrite rev_string_cons. reflexivity.
Qed.

(** Inside a quoted field every character is pushed, a doubled quote
    once. *)
Lemma in_quoted_field_pushes (s : string) (cs : list ascii)
  (fs : list string) (rs : list (list string)) :
  tokenize_bytes (mkParser IN_QUOTED_FIELD cs fs rs) (doubled s) =
  mkParser IN_QUOTED_FIELD (rev_string s ++ cs) fs rs.
Proof.
  revert cs. induction s as [| c s IH]; intros cs; simpl; [ reflexivity | ].
  destruct (Ascii.eqb c DQUOTE) eqn:E.
  - apply Ascii.eqb_eq in E. subst c. simpl.
    unfold step at 2. simpl. unfold step at 1. simpl.
    unfold goto, PUSH_CHAR. simpl. rewrite IH, rev_string_cons. reflexivity.
  - simpl. unfold step. simpl. rewrite E.
    unfold PUSH_CHAR. simpl. rewrite IH, rev_string_cons. reflexivity.
Qed.

Lemma special_ends (s : string) :
  any special s = false -> any is_cr s = false ->
  any ends_field s = false /\ any (fun c => Ascii.eqb c DQUOTE) s = false.
Proof.
  induction s as [| c s IH]; simpl; intros H1 H2; [ auto | ].
  apply orb_false_iff in H1 as [Hc H1]. apply orb_false_iff in H2 as [Hr H2].
  destruct (IH H1 H2) as [IH1 IH2]. rewrite IH1, IH2.
  unfold special in Hc. unfold is_cr in Hr. unfold ends_field.
  apply orb_false_iff in Hc as [Hc Hl]. apply orb_false_iff in Hc as [Hc Hq].
  rewrite Hc, Hq, Hl, Hr. auto.
Qed.

(** A quoted field, up to its closing quote. *)
Lemma read_quoted (first : bool) (s : string) (fs : list string)
  (rs : list (list string)) (rest : string) :
  tokenize_bytes (at_field first fs rs)
    (String DQUOTE (doubled s ++ String DQUOTE EmptyString) ++ rest) =
  tokenize_bytes (mkParser QUOTE_IN_QUOTED_FIELD (rev_string s ++ []) fs rs) rest.
Proof.
  change (String DQUOTE (doubled s ++ String DQUOTE EmptyString) ++ rest)%string
    with (String DQUOTE ((doubled s ++ String DQUOTE EmptyString) ++ rest))%string.
  cbn [tokenize_bytes].
  assert (E : step (at_field first fs rs) DQUOTE = mkParser IN_QUOTED_FIELD [] fs rs)
    by (destruct first; reflexivity).
  rewrite E, append_assoc, tokenize_bytes_app, in_quoted_field_pushes.
  reflexivity.
Qed.

(** A line that started with blanks, once it reaches a delimiter. *)
Lemma whitespace_line_comma (s : string) (cs : list ascii)
  (fs : list string) (rs : list (list string)) (rest : string) :
  any ends_field s = false ->
  tokenize_bytes (mkParser WHITESPACE_LINE cs fs rs) (s ++ String COMMA rest) =
  tokenize_bytes
    (mkParser START_FIELD []
       ((string_of_list_ascii (rev (rev_string s ++ cs))) :: fs) rs)
    rest.
Proof.
  revert cs. induction s as [| c s IH]; intros cs H; simpl in *.
  - reflexivity.
  - apply orb_false_iff in H as [Hc Hs].
    pose proof (ends_field_false _ Hc) as (H1 & H2 & H3).
    unfold step at 1. simpl. rewrite H1, H2.
    destruct (is_blank c).
    + unfold PUSH_CHAR. simpl. rewrite (IH _ Hs), rev_string_cons. reflexivity.
    + unfold in_field. simpl. rewrite H1, H2, H3. unfold PUSH_CHAR. simpl.
      rewrite tokenize_bytes_app, (in_field_pushes _ _ _ _ Hs).
      rewrite rev_string_cons. reflexivity.
Qed.

(** The same, reaching the end of the line: the record is kept when
    some character was not a blank. *)
Lemma whitespace_line_lf (s : string) (cs : list ascii)
  (fs : list string) (rs : list (list string)) (rest : string) :
  any ends_field s = false ->
  any (fun c => negb (is_blank c)) s = true ->
  tokenize_bytes (mkParser WHITESPACE_LINE cs fs rs) (s ++ String LF rest) =
  tokenize_bytes
    (mkParser START_RECORD [] []
       (rev ((string_of_list_ascii (rev (rev_string s ++ cs))) :: fs)
          :: rs)) rest.
Proof.
  revert cs. induction s as [| c s IH]; intros cs H B; simpl in *;
    [ discriminate | ].
  apply orb_false_iff in H as [Hc Hs].
  pose proof (ends_field_false _ Hc) as (H1 & H2 & H3).
  unfold step at 1. simpl. rewrite H1, H2.
  destruct (is_blank c) eqn:Eb; simpl in B.
  - unfold PUSH_CHAR. simpl. rewrite (IH _ Hs B), rev_string_cons. reflexivity.
  - unfold in_field. simpl. rewrite H1, H2, H3. unfold PUSH_CHAR. simpl.
    rewrite tokenize_bytes_app, (in_field_pushes _ _ _ _ Hs).
    rewrite rev_string_cons. reflexivity.
Qed.

(** A field followed by a delimiter. *)
Lemma read_field_comma (first : bool) (s : string) (fs : list string)
  (rs : list (list string)) (rest : string) :
  writable s = true ->
  tokenize_bytes (at_field first fs rs) (write_field s ++ String COMMA rest) =
  tokenize_bytes (at_field false (s :: fs) rs) rest.
Proof.
  intros Hw.
  unfold write_field. destruct (any special s) eqn:Hsp.
  - rewrite read_quoted. simpl. unfold step. simpl.
    unfold goto, END_FIELD. simpl.
    rewrite string_of_rev_string. reflexivity.
  - pose proof (writable_plain s Hw Hsp) as Hcr.
    destruct (special_ends s Hsp Hcr) as [He Hq].
    destruct s as [| c s]; [ destruct first; reflexivity | ].
    simpl in He, Hq.
    apply orb_false_iff in He as [Hc Hs]. apply orb_false_iff in Hq as [Hq _].
    pose proof (ends_field_false _ Hc) as (H1 & H2 & H3).
    assert (Hplain :
      tokenize_bytes (mkParser IN_FIELD [c] fs rs) (s ++ String COMMA rest) =
      tokenize_bytes (at_field false (String c s :: fs) rs) rest).
    { rewrite tokenize_bytes_app, (in_field_pushes _ _ _ _ Hs). simpl.
      unfold step, in_field. simpl. unfold goto, END_FIELD. simpl.
      rewrite <- rev_string_cons, string_of_rev_string. reflexivity. }
    destruct first; simpl.
    + unfold step. simpl. unfold start_record. rewrite H1, H2.
      destruct (is_blank c).
      * unfold goto, PUSH_CHAR. simpl.
        rewrite (whitespace_line_comma _ _ _ _ _ Hs).
        rewrite <- rev_string_cons, string_of_rev_string. reflexivity.
      * unfold start_field. simpl. rewrite H1, H2, Hq, H3. exact Hplain.
    + unfold step. simpl. unfold start_field. rewrite H1, H2, Hq, H3.
      exact Hplain.
Qed.

(** The last field of a record, followed by the line terminator.  At
    the start of a record an unquoted field of blanks is a blank line. *)
Lemma read_field_lf (first : bool) (s : string) (fs : list string)
  (rs : list (list string)) (rest : string) :
  writable s = true ->
  (first = true -> s <> EmptyString /\ blank_record [s] = false) ->
  tokenize_bytes (at_field first fs rs) (write_field s ++ String LF rest) =
  tokenize_bytes (at_field true [] (rev (s :: fs) :: rs)) rest.
Proof.
  intros Hw Hfirst.
  unfold write_field. destruct (any special s) eqn:Hsp.
  - rewrite read_quoted. simpl. unfold step. simpl.
    unfold END_LINE, END_FIELD. simpl.
    rewrite string_of_rev_string. reflexivity.
  - pose proof (writable_plain s Hw Hsp) as Hcr.
    destruct (special_ends s Hsp Hcr) as [He Hq].
    destruct s as [| c s].
    { destruct first; [ destruct (Hfirst eq_refl) as [H _]; congruence | reflexivity ]. }
    simpl in He, Hq.
    apply orb_false_iff in He as [Hc Hs]. apply orb_false_iff in Hq as [Hq _].
    pose proof (ends_field_false _ Hc) as (H1 & H2 & H3).
    assert (Hplain :
      tokenize_bytes (mkParser IN_FIELD [c] fs rs) (s ++ String LF rest) =
      tokenize_bytes (at_field true [] (rev (String c s :: fs) :: rs)) rest).
    { rewrite tokenize_bytes_app, (in_field_pushes _ _ _ _ Hs).
      cbn [tokenize_bytes]. unfold step, in_field. simpl.
      unfold END_LINE, END_FIELD. cbn [chars fields records].
      rewrite <- rev_string_cons, string_of_rev_string. reflexivity. }
    destruct first; cbn [append tokenize_bytes].
    + unfold step. simpl. unfold start_record. rewrite H1, H2.
      destruct (is_blank c) eqn:Eb.
      * destruct (Hfirst eq_refl) as [_ Hb]. simpl in Hb. rewrite Eb in Hb.
        simpl in Hb. apply negb_false_iff in Hb.
        unfold goto, PUSH_CHAR. simpl.
        rewrite (whitespace_line_lf _ _ _ _ _ Hs Hb).
        rewrite <- rev_string_cons, string_of_rev_string. reflexivity.
      * unfold start_field. simpl. rewrite H1, H2, Hq, H3. exact Hplain.
    + unfold step. simpl. unfold start_field. rewrite H1, H2, Hq, H3.
      exact Hplain.
Qed.

Lemma write_field_empty (s : string) :
  write_field s = EmptyString -> s = EmptyString.
Proof.
  unfold write_field. destruct (any special s); [ discriminate | auto ].
Qed.

Lemma join_empty (s : string) (fs : list string) :
  join (map write_field (s :: fs)) = EmptyString ->
  s = EmptyString /\ fs = [].
Proof.
  destruct fs as [| t fs]; simpl.
  - intros H. split; [ apply write_field_empty, H | reflexivity ].
  - destruct (write_field s); simpl; discriminate.
Qed.

(** The fields of a record, up to the end of its line. *)
Lemma read_fields (fs : list string) (first : bool) (acc : list string)
  (rs : list (list string)) (rest : string) :
  fs <> [] ->
  forallb writable fs = true ->
  (first = true ->
   forall s, fs = [s] -> s <> EmptyString /\ blank_record [s] = false) ->
  tokenize_bytes (at_field first acc rs)
    (join (map write_field fs) ++ String LF rest) =
  tokenize_bytes (at_field true [] ((rev acc ++ fs) :: rs)) rest.
Proof.
  revert first acc. induction fs as [| s fs IH]; intros first acc Hne Hcr Hfirst;
    [ congruence | ].
  simpl in Hcr. apply andb_true_iff in Hcr as [Hs Hcr].
  destruct fs as [| t fs].
  - simpl. rewrite read_field_lf; [ reflexivity | exact Hs | ].
    intros ->. apply (Hfirst eq_refl s eq_refl).
  - change (join (map write_field (s :: t :: fs)))
      with (write_field s ++ String COMMA (join (map write_field (t :: fs))))%string.
    rewrite append_assoc. cbn [append].
    rewrite (read_field_comma _ _ _ _ _ Hs).
    rewrite IH; [ | discriminate | exact Hcr | discriminate ].
    simpl. rewrite <- app_assoc. reflexivity.
Qed.

(** One written record is read back as one record. *)
Lemma read_record (r : list string) (rs : list (list string))
  (rest : string) :
  clean_record r = true ->
  tokenize_bytes (at_field true [] rs) (writerow r ++ rest) =
  tokenize_bytes (at_field true [] (r :: rs)) rest.
Proof.
  unfold clean_record. intros H.
  apply andb_true_iff in H as [H Hb]. apply andb_true_iff in H as [Ht Hcr].
  apply negb_true_iff in Hb.
  destruct r as [| s fs]; [ discriminate | ].
  unfold writerow.
  destruct (join (map write_field (s :: fs))) as [| c rec] eqn:E.
  - apply join_empty in E as [-> ->]. reflexivity.
  - rewrite <- E, append_assoc. cbn [append].
    rewrite read_fields; [ reflexivity | discriminate | exact Hcr | ].
    intros _ s' Es. injection Es as <- ->. split; [ | exact Hb ].
    intros ->. simpl in E. discriminate.
Qed.

Lemma read_records (recs : list (list string)) (rs : list (list string)) :
  forallb clean_record recs = true ->
  tokenize_bytes (at_field true [] rs) (writerows recs) =
  at_field true [] (rev recs ++ rs).
Proof.
  revert rs. induction recs as [| r recs IH]; intros rs H; simpl in *;
    [ reflexivity | ].
  apply andb_true_iff in H as [Hr H].
  rewrite (read_record _ _ _ Hr), (IH _ H), <- app_assoc. reflexivity.
Qed.





Section Reload.

Variable number_text : Q -> string.




End Reload.









(** ** Printed integers *)

















(* ================================================================== *)
(** * More about the sidebar and the filter block *)

Lemma selected_ok (df : DataFrame) (name : string)
  (pick : option (list value)) :
  exists sel, selected df name pick = Ok sel.
Proof. destruct (selected_total df name pick) as (sel & H & _). eauto. Qed.

Lemma age_range_raise_propagates (df : DataFrame) (w : Sidebar) (e : exn) :
  age_range df w = Raise e -> filtered_df df w = Raise e.
Proof.
  intros H. unfold filtered_df, selected_departments, selected_genders.
  destruct (selected_ok df "Department" (department_pick w)) as (sd & ->).
  destruct (selected_ok df "Gender" (gender_pick w)) as (sg & ->).
  simpl. rewrite H. reflexivity.
Qed.

Lemma text_free_never_fails (df : DataFrame) (w : Sidebar) (e : exn) :
  text_free df "Age" = true ->
  filtered_df df w = Raise e -> age_range df w = Raise e.
Proof.
  intros Ht H. destruct (age_range df w) as [rng | e'] eqn:Hr.
  - destruct (filtered_df_total df w rng Hr Ht) as (view & Hv). congruence.
  - rewrite (age_range_raise_propagates _ _ _ Hr) in H.
    injection H as <-. reflexivity.
Qed.

(** A comparison with an integer raises as soon as one cell is text. *)
Lemma series_ge_text (s : list value) (n : Z) :
  existsb is_text s = true -> series_ge s n = Raise TypeError.
Proof.
  unfold series_ge. induction s as [| v s IH]; simpl; intros H;
    [ discriminate | ].
  destruct v as [| t | q]; simpl in *;
    [ rewrite (IH H) | | rewrite (IH H) ]; reflexivity.
Qed.

Lemma text_row_raises (df : DataFrame) (departments genders : list value)
  (rng : Z * Z) (r : row) :
  (truthy departments = true -> has_column df "Department" = true) ->
  (truthy genders = true -> has_column df "Gender" = true) ->
  has_column df "Age" = true ->
  In r (rows df) ->
  passes_isin df "Department" departments r = true ->
  passes_isin df "Gender" genders r = true ->
  is_text (field df "Age" r) = true ->
  apply_filters df departments genders rng = Raise TypeError.
Proof.
  intros Hd Hg Ha Hr Pd Pg Ht. unfold apply_filters.
  rewrite (filter_isin_total _ _ _ Hd). simpl.
  rewrite filter_isin_total by (intros E; apply Hg, E). simpl.
  unfold filter_age. rewrite getitem_has by exact Ha. simpl.
  rewrite series_ge_text; [ reflexivity | ].
  apply existsb_exists. exists (field df "Age" r). split; [ | exact Ht ].
  apply in_map_iff. exists r. split; [ reflexivity | ].
  apply filter_In. split; [ | exact Pg ].
  apply filter_In. split; [ exact Hr | exact Pd ].
Qed.

(** When the age slider cannot be built (lines 40-41), the filter block
    fails with the slider's exception.  When the age column holds no text
    that is its only failure.  When a row that passes the department and
    gender selections holds text in its age, the slider may be built and
    line 49 raises a [TypeError].  The department and gender columns
    never make the block fail. *)
Theorem filter_fails_only_on_age (df : DataFrame) (w : Sidebar) :
  (forall e, age_range df w = Raise e -> filtered_df df w = Raise e) /\
  (text_free df "Age" = true ->
   forall e, filtered_df df w = Raise e -> age_range df w = Raise e) /\
  (forall departments genders rng r,
     selected_departments df w = Ok departments ->
     selected_genders df w = Ok genders ->
     age_range df w = Ok rng ->
     In r (rows df) ->
     passes_isin df "Department" departments r = true ->
     passes_isin df "Gender" genders r = true ->
     is_text (field df "Age" r) = true ->
     filtered_df df w = Raise TypeError).
Proof.
  split; [ intros e; apply age_range_raise_propagates | ].
  split; [ intros Ht e; apply text_free_never_fails, Ht | ].
  intros sd sg rng r Hsd Hsg Hr Hin Pd Pg Ht.
  unfold filtered_df. rewrite Hsd, Hsg, Hr. simpl.
  unfold selected_departments in Hsd. unfold selected_genders in Hsg.
  destruct (selected_total df "Department" (department_pick w))
    as (sd' & Hsd' & Hd & _).
  destruct (selected_total df "Gender" (gender_pick w)) as (sg' & Hsg' & Hg & _).
  assert (sd' = sd) by congruence. assert (sg' = sg) by congruence.
  subst sd' sg'.
  apply age_range_ok_bounds in Hr as (b & Hb). apply age_bounds_ok in Hb.
  apply (text_row_raises df sd sg rng r); assumption.
Qed.

Lemma filter_fails_witness :
  filtered_df no_age untouched = Raise (KeyError "Age") /\
  (forall e, filtered_df staff sales_men = Raise e ->
             age_range staff sales_men = Raise e) /\
  age_range text_ages untouched = Ok (30, 45)%Z /\
  filtered_df text_ages untouched = Raise TypeError.
Proof.
  split; [ | split; [ | split ] ].
  - apply (proj1 (filter_fails_only_on_age no_age untouched)). reflexivity.
  - apply (proj1 (proj2 (filter_fails_only_on_age staff sales_men))).
    reflexivity.
  - reflexivity.
  - apply (proj2 (proj2 (filter_fails_only_on_age text_ages untouched))
             [] [] (30, 45)%Z [Str "30"; Str "No"]);
      try reflexivity.
    left. reflexivity.
Defined.

(** A frame whose age column holds no age - no rows at all, or only
    missing ages - stops the script at line 40: [int] of the NaN that
    [min] returns is a [ValueError]. *)
Theorem no_recorded_age_raises (df : DataFrame) (w : Sidebar) :
  has_column df "Age" = true ->
  (forall r, In r (rows df) -> field df "Age" r = NaN) ->
  filtered_df df w = Raise ValueError.
Proof.
  intros Hc Hall. apply age_range_raise_propagates.
  unfold age_range, age_bounds. rewrite (getitem_has _ _ Hc). simpl.
  assert (E : dropna (map (field df "Age") (rows df)) = []).
  { induction (rows df) as [| r rs IH]; simpl; [ reflexivity | ].
    rewrite (Hall r (or_introl eq_refl)). apply IH.
    intros r' Hr'. apply Hall. right. exact Hr'. }
  unfold series_min, reduce. rewrite E. reflexivity.
Qed.

Lemma no_recorded_age_witness :
  filtered_df ageless untouched = Raise ValueError /\
  filtered_df (mkFrame (schema staff) []) untouched = Raise ValueError.
Proof.
  split.
  - apply (no_recorded_age_raises ageless untouched); [ reflexivity | ].
    intros r [<- | [<- | []]]; reflexivity.
  - apply (no_recorded_age_raises (mkFrame (schema staff) []) untouched);
      [ reflexivity | intros r [] ].
Defined.

(** ** What the view depends on *)

Lemma truthy_mem (l l' : list value) :
  (forall v, mem v l = mem v l') -> truthy l = truthy l'.
Proof.
  intros H. destruct l as [| x l], l' as [| y l']; try reflexivity.
  - specialize (H y). simpl in H. rewrite value_eqb_refl in H. discriminate.
  - specialize (H x). simpl in H. rewrite value_eqb_refl in H. discriminate.
Qed.

Lemma filter_isin_members (fdf : DataFrame) (name : string)
  (l l' : list value) :
  (forall v, mem v l = mem v l') ->
  filter_isin fdf name l = filter_isin fdf name l'.
Proof.
  intros H. unfold filter_isin. rewrite (truthy_mem _ _ H).
  destruct (truthy l'); [ | reflexivity ].
  destruct (getitem fdf name) as [s | e]; simpl; [ | reflexivity ].
  unfold isin. do 2 f_equal. apply map_ext. intros v. apply H.
Qed.

(** The view depends on a selection only through its members: the
    order in which values were ticked and repetitions make no
    difference. *)
Theorem view_depends_on_members
  (df : DataFrame) (departments departments' genders genders' : list value)
  (rng : Z * Z) :
  (forall v, mem v departments = mem v departments') ->
  (forall v, mem v genders = mem v genders') ->
  apply_filters df departments genders rng =
  apply_filters df departments' genders' rng.
Proof.
  intros Hd Hg. unfold apply_filters.
  rewrite (filter_isin_members df "Department" _ _ Hd).
  destruct (filter_isin df "Department" departments') as [f | e]; simpl;
    [ | reflexivity ].
  rewrite (filter_isin_members f "Gender" _ _ Hg). reflexivity.
Qed.

Lemma view_depends_on_members_witness :
  apply_filters staff [Str "Sales"; Str "Research"] [Str "Male"] (30, 50)%Z =
  apply_filters staff [Str "Research"; Str "Sales"; Str "Research"]
                [Str "Male"; Str "Male"] (30, 50)%Z.
Proof.
  apply (view_depends_on_members staff); intros v;
    destruct v as [| s | q]; try reflexivity; simpl;
    destruct (s =? "Sales")%string, (s =? "Research")%string,
             (s =? "Male")%string; reflexivity.
Defined.

Lemma filter_filter_implied {A : Type} (p q : A -> bool) (l : list A) :
  (forall x, In x l -> p x = true -> q x = true) ->
  filter p l = filter p (filter q l).
Proof.
  intros H. rewrite filter_twice. apply filter_ext_in. intros x Hx.
  destruct (p x) eqn:E; [ rewrite (H x Hx E); reflexivity | ].
  symmetry. apply andb_false_r.
Qed.

Lemma passes_isin_wider (df : DataFrame) (name : string)
  (l l' : list value) (r : row) :
  l' = [] \/ (l <> [] /\ forall v, mem v l = true -> mem v l' = true) ->
  passes_isin df name l r = true -> passes_isin df name l' r = true.
Proof.
  unfold passes_isin. intros [-> | [Hne Hsub]]; [ reflexivity | ].
  destruct l as [| x l]; [ congruence | ]. simpl. intros H.
  apply Hsub in H. rewrite H. apply orb_true_r.
Qed.

Lemma in_range_wider (rng rng' : Z * Z) (v : value) :
  (fst rng' <= fst rng)%Z -> (snd rng <= snd rng')%Z ->
  in_range rng v = true -> in_range rng' v = true.
Proof.
  intros Hlo Hhi. rewrite !in_range_iff. intros (q & -> & H1 & H2).
  exists q. split; [ reflexivity | ].
  rewrite Zle_Qle in Hlo, Hhi. split.
  - apply Qle_trans with (inject_Z (fst rng)); assumption.
  - apply Qle_trans with (inject_Z (snd rng)); assumption.
Qed.

(** Narrowing the filters can only remove rows: when each selection
    is a non-empty part of the other one (or the other one is switched
    off) and the age range lies inside the other range, the narrower view
    is a subsequence of the wider view. *)
Theorem narrower_filters_narrower_view
  (df view view' : DataFrame)
  (departments departments' genders genders' : list value)
  (rng rng' : Z * Z) :
  apply_filters df departments genders rng = Ok view ->
  apply_filters df departments' genders' rng' = Ok view' ->
  departments' = [] \/
    (departments <> [] /\
     forall v, mem v departments = true -> mem v departments' = true) ->
  genders' = [] \/
    (genders <> [] /\ forall v, mem v genders = true -> mem v genders' = true) ->
  (fst rng' <= fst rng)%Z -> (snd rng <= snd rng')%Z ->
  Subsequence (rows view) (rows view').
Proof.
  intros H H' Hd Hg Hlo Hhi.
  apply apply_filters_ok in H as [_ R]. apply apply_filters_ok in H' as [_ R'].
  rewrite R, R'.
  rewrite (filter_filter_implied _
             (fun r => passes_isin df "Department" departments' r &&
                       passes_isin df "Gender" genders' r &&
                       passes_age df rng' r)).
  - apply filter_Subsequence.
  - intros r _ Hp.
    apply andb_true_iff in Hp as [Hp Ha]. apply andb_true_iff in Hp as [Hp1 Hp2].
    rewrite (passes_isin_wider _ _ _ _ _ Hd Hp1).
    rewrite (passes_isin_wider _ _ _ _ _ Hg Hp2).
    unfold passes_age in *. rewrite (in_range_wider _ _ _ Hlo Hhi Ha).
    reflexivity.
Qed.

Lemma narrower_filters_witness :
  exists view view',
    apply_filters staff [Str "Sales"] [Str "Female"] (35, 45)%Z = Ok view /\
    apply_filters staff [Str "Sales"; Str "Research"] [] (30, 50)%Z = Ok view' /\
    Subsequence (rows view) (rows view').
Proof.
  eexists; eexists. split; [ reflexivity | ]. split; [ reflexivity | ].
  apply (narrower_filters_narrower_view staff _ _
           [Str "Sales"] [Str "Sales"; Str "Research"] [Str "Female"] []
           (35, 45)%Z (30, 50)%Z eq_refl eq_refl).
  - right. split; [ discriminate | ].
    intros v H. simpl in *. rewrite orb_false_r in H. rewrite H. reflexivity.
  - left. reflexivity.
  - simpl. lia.
  - simpl. lia.
Defined.


(* ================================================================== *)
(** * More about the widgets *)

(** ** Options of a multiselect *)

Lemma unique_acc_spec (seen s : list value) :
  NoDupA same_value (unique_acc seen s) /\
  forall v, In v (unique_acc seen s) -> mem v seen = false.
Proof.
  revert seen. induction s as [| x s IH]; intros seen; simpl.
  - split; [ constructor | intros v [] ].
  - destruct (mem x seen) eqn:E; [ apply IH | ].
    destruct (IH (x :: seen)) as [ND Hout]. split.
    + constructor; [ | exact ND ].
      intros HA. apply InA_alt in HA as (y & Exy & Hy).
      specialize (Hout y Hy). simpl in Hout.
      apply orb_false_iff in Hout as [Hyx _].
      unfold same_value in Exy. rewrite value_eqb_sym in Exy. congruence.
    + intros v [<- | Hv]; [ exact E | ].
      specialize (Hout v Hv). simpl in Hout.
      apply orb_false_iff in Hout as [_ Hs]. exact Hs.
Qed.

Lemma unique_NoDupA (s : list value) : NoDupA same_value (unique s).
Proof. apply unique_acc_spec. Qed.

(** The options of a multiselect list every value of the column once:
    they are pairwise different, each is the non-missing value of some
    row, every non-missing value of a row is among them, and whatever the
    widget returns is among them too. *)
Theorem options_are_the_distinct_values (df : DataFrame) (name : string) :
  has_column df name = true ->
  exists options,
    selected df name None = Ok options /\
    NoDupA same_value options /\
    (forall v, In v options ->
       v <> NaN /\ exists r, In r (rows df) /\ field df name r = v) /\
    (forall r, In r (rows df) -> field df name r <> NaN ->
       mem (field df name r) options = true) /\
    (forall pick selection, selected df name pick = Ok selection ->
       forall v, In v selection -> mem v options = true).
Proof.
  intros Hc. pose proof (selected_present df name None Hc) as Hd.
  simpl in Hd. eexists. split; [ exact Hd | ].
  set (col := map (field df name) (rows df)).
  split; [ apply unique_NoDupA | ]. split; [ | split ].
  - intros v Hv. apply unique_acc_In, dropna_In in Hv as [Hv Hn].
    split; [ exact Hn | ]. apply in_map_iff in Hv as (r & <- & Hr). eauto.
  - intros r Hr Hn. rewrite mem_unique, mem_dropna.
    unfold col. rewrite (mem_In _ _ (in_map _ _ _ Hr)).
    destruct (field df name r); [ congruence | reflexivity | reflexivity ].
  - intros pick sel Hs v Hv. rewrite (selected_present df name pick Hc) in Hs.
    injection Hs as <-. destruct pick as [l |]; simpl in Hv.
    + apply filter_In in Hv. apply Hv.
    + apply mem_In, Hv.
Qed.

Lemma options_witness :
  exists options,
    selected_departments staff untouched = Ok options /\
    options = [Str "Sales"; Str "Research"] /\
    NoDupA same_value options.
Proof.
  destruct (options_are_the_distinct_values staff "Department" eq_refl)
    as (options & H & ND & _).
  exists options. split; [ exact H | ].
  split; [ | exact ND ].
  change (selected staff "Department" None)
    with (Ok [Str "Sales"; Str "Research"]) in H.
  injection H as <-. reflexivity.
Defined.

(** ** Bounds of the age slider *)

Lemma trunc_le (x y : Q) : x <= y -> (trunc x <= trunc y)%Z.
Proof.
  intros H. unfold trunc.
  destruct (Qle_bool 0 x) eqn:Ex, (Qle_bool 0 y) eqn:Ey.
  - apply Qfloor_resp_le, H.
  - apply Qle_bool_iff in Ex. pose proof (Qle_trans _ _ _ Ex H) as H0.
    apply Qle_bool_iff in H0. congruence.
  - apply Z.le_trans with 0%Z.
    + change 0%Z with (Qceiling (inject_Z 0)). rewrite <- (Qceiling_Z 0) at 1.
      apply Qceiling_resp_le.
      destruct (Qlt_le_dec x 0) as [Hlt | Hge];
        [ apply Qlt_le_weak, Hlt | apply Qle_bool_iff in Hge; congruence ].
    + rewrite <- (Qfloor_Z 0). apply Qfloor_resp_le, Qle_bool_iff, Ey.
  - apply Qceiling_resp_le, H.
Qed.

Lemma trunc_whole (q : Q) : whole q -> inject_Z (trunc q) == q.
Proof.
  unfold whole, trunc. intros H.
  destruct (Qle_bool 0 q); [ symmetry; exact H | ].
  rewrite (Qceiling_comp _ _ H), Qceiling_Z. symmetry. exact H.
Qed.

Lemma fold_min_le (l : list Q) (a : Q) :
  fold_left Qmin_b l a <= a /\ forall q, In q l -> fold_left Qmin_b l a <= q.
Proof.
  revert a. induction l as [| x l IH]; intros a; simpl.
  - split; [ apply Qle_refl | intros q [] ].
  - destruct (IH (Qmin_b a x)) as [H1 H2].
    assert (Ha : Qmin_b a x <= a /\ Qmin_b a x <= x).
    { unfold Qmin_b. destruct (Qle_bool a x) eqn:E.
      - apply Qle_bool_iff in E. split; [ apply Qle_refl | exact E ].
      - split; [ | apply Qle_refl ].
        destruct (Qlt_le_dec x a) as [Hlt | Hge];
          [ apply Qlt_le_weak, Hlt | apply Qle_bool_iff in Hge; congruence ]. }
    split; [ apply Qle_trans with (Qmin_b a x); tauto | ].
    intros q [<- | Hq]; [ apply Qle_trans with (Qmin_b a x); tauto | apply H2, Hq ].
Qed.

Lemma fold_max_ge (l : list Q) (a : Q) :
  a <= fold_left Qmax_b l a /\ forall q, In q l -> q <= fold_left Qmax_b l a.
Proof.
  revert a. induction l as [| x l IH]; intros a; simpl.
  - split; [ apply Qle_refl | intros q [] ].
  - destruct (IH (Qmax_b a x)) as [H1 H2].
    assert (Ha : a <= Qmax_b a x /\ x <= Qmax_b a x).
    { unfold Qmax_b. destruct (Qle_bool a x) eqn:E.
      - apply Qle_bool_iff in E. split; [ exact E | apply Qle_refl ].
      - split; [ apply Qle_refl | ].
        destruct (Qlt_le_dec x a) as [Hlt | Hge];
          [ apply Qlt_le_weak, Hlt | apply Qle_bool_iff in Hge; congruence ]. }
    split; [ apply Qle_trans with (Qmax_b a x); tauto | ].
    intros q [<- | Hq]; [ apply Qle_trans with (Qmax_b a x); tauto | apply H2, Hq ].
Qed.

(** A series without text: what is left after [dropna] is its numbers. *)
Lemma dropna_nums (s : list value) :
  forallb (fun v => negb (is_text v)) s = true -> dropna s = map Num (nums s).
Proof.
  induction s as [| v s IH]; simpl; intros H; [ reflexivity | ].
  apply andb_true_iff in H as [Hv Hs].
  destruct v as [| t | q]; simpl in *;
    [ apply IH, Hs | discriminate Hv | rewrite (IH Hs); reflexivity ].
Qed.

Lemma fold_lesser_nums (qs : list Q) (q0 : Q) :
  fold_result lesser (map Num qs) (Num q0) = Ok (Num (fold_left Qmin_b qs q0)).
Proof.
  revert q0. induction qs as [| q qs IH]; intros q0; simpl; [ reflexivity | ].
  apply IH.
Qed.

Lemma fold_greater_nums (qs : list Q) (q0 : Q) :
  fold_result greater (map Num qs) (Num q0) = Ok (Num (fold_left Qmax_b qs q0)).
Proof.
  revert q0. induction qs as [| q qs IH]; intros q0; simpl; [ reflexivity | ].
  apply IH.
Qed.

Lemma nums_In (s : list value) (q : Q) : In (Num q) s -> In q (nums s).
Proof.
  intros H. unfold nums. apply in_flat_map. exists (Num q).
  split; [ exact H | left; reflexivity ].
Qed.

(** What line 40 computes on an age column without text: the truncated
    least and greatest age. *)
Lemma age_bounds_min_max (df : DataFrame) (b : Z * Z) :
  age_bounds df = Ok b ->
  text_free df "Age" = true ->
  exists lo hi,
    b = (trunc lo, trunc hi) /\ lo <= hi /\
    forall r q, In r (rows df) -> field df "Age" r = Num q -> lo <= q /\ q <= hi.
Proof.
  unfold age_bounds, series_min, series_max, reduce. intros H T.
  apply text_free_map in T.
  destruct (getitem df "Age") as [s | e] eqn:G; simpl in H; [ | discriminate ].
  apply getitem_ok in G. rewrite <- G in T.
  rewrite (dropna_nums _ T) in H.
  destruct (nums s) as [| q0 qs] eqn:En; simpl in H; [ discriminate | ].
  rewrite fold_lesser_nums, fold_greater_nums in H. simpl in H.
  injection H as <-.
  exists (fold_left Qmin_b qs q0), (fold_left Qmax_b qs q0).
  destruct (fold_min_le qs q0) as [L1 L2]. destruct (fold_max_ge qs q0) as [M1 M2].
  split; [ reflexivity | ].
  split; [ apply Qle_trans with q0; assumption | ].
  intros r q Hr Hq.
  assert (Hin : In q (q0 :: qs)).
  { rewrite <- En. apply nums_In. rewrite G, <- Hq. apply in_map, Hr. }
  destruct Hin as [<- | Hin]; [ split; assumption | ].
  split; [ apply L2, Hin | apply M2, Hin ].
Qed.

Lemma age_bounds_cover_whole_ages_aux (df : DataFrame) (b : Z * Z) :
  age_bounds df = Ok b ->
  text_free df "Age" = true ->
  (fst b <= snd b)%Z /\
  forall r q, In r (rows df) -> field df "Age" r = Num q -> whole q ->
              in_range b (Num q) = true.
Proof.
  intros H T. apply age_bounds_min_max in H as (lo & hi & -> & Hle & Hall);
    [ | exact T ].
  split; [ apply trunc_le, Hle | ].
  intros r q Hr Hq Hw. destruct (Hall r q Hr Hq) as [H1 H2].
  apply in_range_iff. exists q. split; [ reflexivity | ]. simpl.
  pose proof (trunc_whole q Hw) as Eq.
  split.
  - rewrite <- Eq. rewrite <- Zle_Qle. apply trunc_le, H1.
  - rewrite <- Eq at 1. rewrite <- Zle_Qle. apply trunc_le, H2.
Qed.

(** A reduction that returns compared cells of one kind only. *)
Lemma fold_result_same_kind (f : value -> value -> result value)
  (vs : list value) (v x : value) :
  (forall a u a', f a u = Ok a' ->
     same_kind a u = true /\ forall t, same_kind a' t = same_kind a t) ->
  fold_result f vs v = Ok x ->
  forallb (same_kind v) vs = true.
Proof.
  intros Hf. revert v. induction vs as [| u vs IH]; intros v H; simpl in *;
    [ reflexivity | ].
  destruct (f v u) as [a' |] eqn:E; simpl in H; [ | discriminate ].
  destruct (Hf _ _ _ E) as [K1 K2]. rewrite K1. simpl.
  apply forallb_forall. intros t Ht. rewrite <- K2.
  pose proof (IH _ H) as IH'. rewrite forallb_forall in IH'. apply IH', Ht.
Qed.

Lemma lesser_same_kind (a u a' : value) :
  lesser a u = Ok a' ->
  same_kind a u = true /\ forall t, same_kind a' t = same_kind a t.
Proof.
  destruct a, u; simpl; try discriminate; intros H; injection H as <-;
    split; reflexivity.
Qed.

(** When line 40 succeeds on a column that holds a number, the column
    holds no text. *)
Lemma age_bounds_with_number (df : DataFrame) (b : Z * Z) (r : row) (q : Q) :
  age_bounds df = Ok b ->
  In r (rows df) -> field df "Age" r = Num q ->
  text_free df "Age" = true.
Proof.
  unfold age_bounds, series_min, reduce. intros H Hr Hq.
  destruct (getitem df "Age") as [s | e] eqn:G; simpl in H; [ | discriminate ].
  apply getitem_ok in G.
  assert (Hin : In (Num q) (dropna s)).
  { apply dropna_In. split; [ | discriminate ].
    rewrite G, <- Hq. apply in_map, Hr. }
  destruct (dropna s) as [| v vs] eqn:Ed; [ destruct Hin | ].
  destruct (fold_result lesser vs v) as [x |] eqn:F; simpl in H;
    [ | discriminate ].
  pose proof (fold_result_same_kind lesser vs v x lesser_same_kind F) as K.
  rewrite forallb_forall in K.
  assert (Hv : exists p, v = Num p).
  { destruct Hin as [Hv | Hin]; [ eauto | ].
    specialize (K _ Hin). destruct v; try discriminate K. eauto. }
  destruct Hv as (p & ->).
  unfold text_free. apply forallb_forall. intros r' Hr'.
  destruct (field df "Age" r') as [| t | p'] eqn:E; [ reflexivity | | reflexivity ].
  exfalso.
  assert (Ht : In (Str t) (dropna s)).
  { apply dropna_In. split; [ | discriminate ].
    rewrite G, <- E. apply in_map, Hr'. }
  rewrite Ed in Ht. destruct Ht as [Ht | Ht]; [ discriminate Ht | ].
  specialize (K _ Ht). discriminate K.
Qed.

(** On an age column that holds no text, the bounds of the age slider
    are in order, and every age that is a whole number lies between
    them: the default range of the slider excludes no employee with a
    whole age. *)
Theorem age_bounds_cover_whole_ages (df : DataFrame) (b : Z * Z) :
  age_bounds df = Ok b ->
  text_free df "Age" = true ->
  (fst b <= snd b)%Z /\
  forall r q, In r (rows df) -> field df "Age" r = Num q -> whole q ->
              in_range b (Num q) = true.
Proof.
  intros H T. destruct (age_bounds_cover_whole_ages_aux df b H T) as [Hle Hc].
  split; [ exact Hle | exact Hc ].
Qed.

Lemma age_bounds_witness :
  age_bounds staff = Ok (33, 49)%Z /\
  in_range (33, 49)%Z (Num 41) = true.
Proof.
  split; [ reflexivity | ].
  destruct (age_bounds_cover_whole_ages staff (33, 49)%Z eq_refl eq_refl)
    as [_ H].
  apply (H [Num 1; Str "Sales"; Str "Female"; Num 41; Str "Yes"] 41).
  - left. reflexivity.
  - reflexivity.
  - reflexivity.
Defined.

(** ** The view of an untouched sidebar *)

Lemma truthy_unique (s : list value) : truthy (unique s) = truthy s.
Proof. destruct s; reflexivity. Qed.

Lemma truthy_dropna (s : list value) :
  truthy (dropna s) = existsb (fun v => negb (isnull v)) s.
Proof.
  induction s as [| v s IH]; simpl; [ reflexivity | ].
  destruct v; simpl; [ exact IH | reflexivity | reflexivity ].
Qed.

Lemma existsb_of_map {A B : Type} (p : B -> bool) (f : A -> B) (l : list A) :
  existsb p (map f l) = existsb (fun x => p (f x)) l.
Proof. induction l as [| x l IH]; simpl; [ reflexivity | rewrite IH; reflexivity ]. Qed.

Lemma recorded_absent (df : DataFrame) (name : string) :
  has_column df name = false -> recorded df name = false.
Proof.
  unfold has_column, recorded, field.
  destruct (index_of name (columns df)); [ discriminate | intros _ ].
  induction (rows df) as [| r rs IH]; simpl; [ reflexivity | exact IH ].
Qed.

(** What an untouched multiselect lets through. *)
Lemma default_selection_passes (df : DataFrame) (name : string)
  (sel : list value) (r : row) :
  selected df name None = Ok sel -> In r (rows df) ->
  passes_isin df name sel r =
  negb (recorded df name) || negb (isnull (field df name r)).
Proof.
  intros Hs Hr. destruct (has_column df name) eqn:Hc.
  - rewrite (selected_present df name None Hc) in Hs. simpl in Hs.
    injection Hs as <-. unfold passes_isin.
    rewrite truthy_unique, truthy_dropna, existsb_of_map.
    fold (recorded df name). rewrite mem_unique, mem_dropna.
    rewrite (mem_In _ _ (in_map (field df name) _ _ Hr)), andb_true_r.
    reflexivity.
  - rewrite (selected_absent df name None Hc) in Hs. injection Hs as <-.
    rewrite (recorded_absent _ _ Hc). reflexivity.
Qed.

(** With the sidebar untouched and ages that are whole numbers, the
    view is exactly the rows with nothing missing: an age, and a
    department and a gender whenever the frame records any.  Rows with a
    missing value are dropped without notice. *)
Theorem untouched_sidebar_keeps_complete_rows (df view : DataFrame) :
  filtered_df df untouched = Ok view ->
  (forall r q, In r (rows df) -> field df "Age" r = Num q -> whole q) ->
  rows view = filter (complete_row df) (rows df).
Proof.
  intros H Hw.
  pose proof H as Hraw.
  apply filtered_df_ok in H as (sd & sg & rng & Hsd & Hsg & Hr & _ & R).
  unfold filtered_df in Hraw. rewrite Hsd, Hsg, Hr in Hraw. simpl in Hraw.
  rewrite R. apply filter_ext_in. intros r Hin. unfold complete_row.
  rewrite <- (default_selection_passes df "Department" sd r Hsd Hin).
  rewrite <- (default_selection_passes df "Gender" sg r Hsg Hin).
  unfold age_range in Hr. destruct (age_bounds df) as [b | e] eqn:Hb;
    simpl in Hr; [ | discriminate ].
  unfold slider in Hr.
  destruct ((fst b <? snd b)%Z && js_safe (fst b) && js_safe (snd b));
    [ | discriminate ].
  simpl in Hr. injection Hr as <-.
  unfold passes_age.
  destruct (field df "Age" r) as [| s | q] eqn:Ea.
  - reflexivity.
  - simpl. rewrite !andb_false_r, andb_true_r.
    destruct (passes_isin df "Department" sd r) eqn:Pd;
      [ | reflexivity ].
    destruct (passes_isin df "Gender" sg r) eqn:Pg; [ exfalso | reflexivity ].
    unfold selected_departments in Hsd. unfold selected_genders in Hsg.
    destruct (selected_total df "Department" (department_pick untouched))
      as (sd' & Hsd' & Hd & _).
    destruct (selected_total df "Gender" (gender_pick untouched))
      as (sg' & Hsg' & Hg & _).
    assert (sd' = sd) by congruence. assert (sg' = sg) by congruence.
    subst sd' sg'.
    rewrite (text_row_raises df sd sg b r Hd Hg (age_bounds_ok _ _ Hb) Hin Pd Pg)
      in Hraw; [ discriminate Hraw | ].
    rewrite Ea. reflexivity.
  - f_equal.
    pose proof (age_bounds_with_number df b r q Hb Hin Ea) as T.
    destruct (age_bounds_cover_whole_ages_aux df b Hb T) as [_ Hcover].
    apply (Hcover r q Hin Ea (Hw r q Hin Ea)).
Qed.

Lemma untouched_sidebar_witness :
  exists view,
    filtered_df staff untouched = Ok view /\
    rows view = filter (complete_row staff) (rows staff) /\
    List.length (rows view) = 2%nat.
Proof.
  eexists. split; [ reflexivity | ].
  split; [ | reflexivity ].
  apply (untouched_sidebar_keeps_complete_rows staff _ eq_refl).
  intros r q [<- | [<- | [<- | [<- | [<- | []]]]]] E; compute in E;
    try discriminate E; injection E as <-; reflexivity.
Defined.

(* ================================================================== *)
(** * More about the attrition tables *)

(** ** Labels: sorted and distinct *)

Lemma value_leb_total (a b : value) :
  value_leb a b = false -> value_leb b a = true.
Proof.
  destruct a as [| s | p], b as [| t | q]; simpl; try discriminate;
    try reflexivity.
  - intros H. destruct (String.leb_total s t) as [E | E]; congruence.
  - intros H. destruct (Qlt_le_dec q p) as [Hlt | Hge].
    + apply Qle_bool_iff, Qlt_le_weak, Hlt.
    + apply Qle_bool_iff in Hge. congruence.
Qed.

Lemma insert_sorted_HdRel (v x : value) (l : list value) :
  value_le x v -> HdRel value_le x l -> HdRel value_le x (insert_sorted v l).
Proof.
  intros Hxv H. destruct l as [| y l]; simpl; [ constructor; exact Hxv | ].
  destruct (value_leb v y); constructor; [ exact Hxv | ].
  inversion H; assumption.
Qed.

Lemma insert_sorted_Sorted (v : value) (l : list value) :
  Sorted value_le l -> Sorted value_le (insert_sorted v l).
Proof.
  induction l as [| x l IH]; simpl; intros H.
  - repeat constructor.
  - inversion H as [| ? ? Hs Hh]; subst.
    destruct (value_leb v x) eqn:E.
    + constructor; [ exact H | constructor; exact E ].
    + constructor; [ apply IH, Hs | ].
      apply insert_sorted_HdRel; [ apply value_leb_total, E | exact Hh ].
Qed.

Lemma sort_values_Sorted (l : list value) : Sorted value_le (sort_values l).
Proof.
  induction l as [| x l IH]; simpl; [ constructor | ].
  apply insert_sorted_Sorted, IH.
Qed.

Lemma same_value_equiv : Equivalence same_value.
Proof.
  split.
  - intros a. apply value_eqb_refl.
  - intros a b H. unfold same_value in *. rewrite value_eqb_sym. exact H.
  - intros a b c. apply value_eqb_trans.
Qed.

Lemma insert_sorted_InA (v x : value) (l : list value) :
  InA same_value x (insert_sorted v l) <-> same_value x v \/ InA same_value x l.
Proof.
  induction l as [| y l IH]; simpl.
  - rewrite InA_cons, InA_nil. tauto.
  - destruct (value_leb v y).
    + rewrite InA_cons. tauto.
    + rewrite !InA_cons, IH. tauto.
Qed.

Lemma insert_sorted_NoDupA (v : value) (l : list value) :
  ~ InA same_value v l -> NoDupA same_value l ->
  NoDupA same_value (insert_sorted v l).
Proof.
  induction l as [| y l IH]; simpl; intros Hn ND.
  - constructor; [ exact Hn | constructor ].
  - destruct (value_leb v y); [ constructor; assumption | ].
    inversion ND as [| ? ? Hy ND']; subst. constructor.
    + rewrite insert_sorted_InA. intros [E | Hin]; [ | contradiction ].
      apply Hn. constructor. unfold same_value in *.
      rewrite value_eqb_sym. exact E.
    + apply IH; [ | exact ND' ]. intros Hin. apply Hn. right. exact Hin.
Qed.

Lemma sort_values_InA (x : value) (l : list value) :
  InA same_value x (sort_values l) <-> InA same_value x l.
Proof.
  induction l as [| y l IH]; simpl; [ tauto | ].
  rewrite insert_sorted_InA, InA_cons, IH. tauto.
Qed.

Lemma sort_values_NoDupA (l : list value) :
  NoDupA same_value l -> NoDupA same_value (sort_values l).
Proof.
  induction l as [| y l IH]; simpl; intros ND; [ constructor | ].
  inversion ND as [| ? ? Hy ND']; subst.
  apply insert_sorted_NoDupA; [ | apply IH, ND' ].
  rewrite sort_values_InA. exact Hy.
Qed.

Lemma labels_Sorted (s : list value) : Sorted value_le (labels s).
Proof. apply sort_values_Sorted. Qed.

Lemma labels_NoDupA (s : list value) : NoDupA same_value (labels s).
Proof. apply sort_values_NoDupA, unique_NoDupA. Qed.

Lemma table_row_labels (index cols : list value) :
  map fst (scale 100 (normalize_index (crosstab index cols))) =
  labels (map fst (complete_pairs index cols)).
Proof.
  unfold scale, normalize_index, crosstab. rewrite !map_map. simpl.
  apply map_id.
Qed.

Lemma table_col_labels (index cols : list value) (c : value)
  (cells : list (value * Q)) :
  In (c, cells) (scale 100 (normalize_index (crosstab index cols))) ->
  map fst cells = labels (map snd (complete_pairs index cols)).
Proof.
  intros H. apply table_rows in H as (counts & Hin & ->).
  unfold crosstab in Hin. apply in_map_iff in Hin as (c' & E & _).
  injection E as _ <-. rewrite !map_map. simpl. apply map_id.
Qed.

(** The table lists each category once, in ascending order, and every
    row of it has the same attrition values as columns, each once and in
    ascending order: the table is rectangular. *)
Theorem table_is_sorted_and_rectangular
  (fdf : DataFrame) (name : string) (t : table Q) :
  crossTabRate fdf name = Ok t ->
  Sorted value_le (map fst t) /\
  NoDupA same_value (map fst t) /\
  exists columns_of_table,
    Sorted value_le columns_of_table /\
    NoDupA same_value columns_of_table /\
    forall c cells, In (c, cells) t -> map fst cells = columns_of_table.
Proof.
  intros H. apply crossTabRate_ok in H. subst t.
  rewrite table_row_labels.
  split; [ apply labels_Sorted | ]. split; [ apply labels_NoDupA | ].
  eexists. split; [ apply labels_Sorted | ]. split; [ apply labels_NoDupA | ].
  intros c cells Hin. apply (table_col_labels _ _ _ _ Hin).
Qed.

Lemma table_shape_witness :
  exists t,
    crossTabRate staff "Department" = Ok t /\
    map fst t = [Str "Research"; Str "Sales"] /\
    Sorted value_le (map fst t).
Proof.
  eexists. split; [ reflexivity | ]. split; [ reflexivity | ].
  apply (table_is_sorted_and_rectangular staff "Department" _ eq_refl).
Defined.

(** ** What a cell of the table is *)

Lemma row_sum_zsum (f : value -> Z) (l : list value) :
  row_sum (map (fun a => (a, f a)) l) = zsum f l.
Proof. unfold row_sum, zsum. rewrite map_map. reflexivity. Qed.

Lemma zsum_zero (f : value -> Z) (l : list value) :
  (forall a, In a l -> f a = 0%Z) -> zsum f l = 0%Z.
Proof.
  unfold zsum. induction l as [| x l IH]; simpl; intros H; [ reflexivity | ].
  rewrite (H x (or_introl eq_refl)), IH; [ reflexivity | ].
  intros a Ha. apply H. right. exact Ha.
Qed.

Lemma zsum_add (f g : value -> Z) (l : list value) :
  zsum (fun a => (f a + g a)%Z) l = (zsum f l + zsum g l)%Z.
Proof.
  unfold zsum. induction l as [| x l IH]; simpl; [ reflexivity | ].
  rewrite IH. lia.
Qed.

Lemma zsum_ext (f g : value -> Z) (l : list value) :
  (forall a, f a = g a) -> zsum f l = zsum g l.
Proof. intros H. unfold zsum. f_equal. apply map_ext, H. Qed.

(** Among distinct labels exactly one stands for a given member. *)
Lemma one_label_matches (v : value) (l : list value) :
  NoDupA same_value l -> mem v l = true ->
  zsum (fun a => if value_eqb v a then 1%Z else 0%Z) l = 1%Z.
Proof.
  induction l as [| x l IH]; simpl; intros ND Hm; [ discriminate | ].
  inversion ND as [| ? ? Hx ND']; subst.
  change (zsum (fun a => if value_eqb v a then 1%Z else 0%Z) (x :: l))
    with ((if value_eqb v x then 1 else 0)
          + zsum (fun a => if value_eqb v a then 1%Z else 0%Z) l)%Z.
  destruct (value_eqb v x) eqn:E.
  - rewrite zsum_zero; [ reflexivity | ].
    intros a Ha. destruct (value_eqb v a) eqn:Ea; [ exfalso | reflexivity ].
    apply Hx. apply InA_alt. exists a. split; [ | exact Ha ].
    unfold same_value. apply value_eqb_trans with v; [ | exact Ea ].
    rewrite value_eqb_sym. exact E.
  - simpl in Hm. rewrite (IH ND' Hm). reflexivity.
Qed.

Lemma count_pairs_cons (p : value * value) (ps : list (value * value))
  (c a : value) :
  count_pairs (p :: ps) c a =
  ((if same_pair c a p then 1 else 0) + count_pairs ps c a)%Z.
Proof.
  unfold count_pairs. cbn [filter].
  destruct (same_pair c a p); cbn [List.length]; lia.
Qed.

(** The counts of a row add up to the number of pairs of its label. *)
Lemma zsum_count_pairs (ps : list (value * value)) (c : value)
  (l : list value) :
  NoDupA same_value l ->
  (forall p, In p ps -> mem (snd p) l = true) ->
  zsum (count_pairs ps c) l =
  Z.of_nat (List.length (filter (fun p => value_eqb (fst p) c) ps)).
Proof.
  intros ND. induction ps as [| p ps IH]; intros Hm.
  - simpl. apply zsum_zero. reflexivity.
  - rewrite (zsum_ext _ (fun a => ((if same_pair c a p then 1 else 0)
                                   + count_pairs ps c a)%Z))
      by (intros a; apply count_pairs_cons).
    rewrite zsum_add, IH by (intros q Hq; apply Hm; right; exact Hq).
    simpl. unfold same_pair.
    destruct (value_eqb (fst p) c); simpl.
    + rewrite (one_label_matches _ _ ND (Hm p (or_introl eq_refl))). lia.
    + rewrite zsum_zero by reflexivity. lia.
Qed.

Lemma length_filter_map {A B : Type} (p : B -> bool) (h : A -> B)
  (l : list A) :
  List.length (filter p (map h l)) =
  List.length (filter (fun x => p (h x)) l).
Proof.
  induction l as [| x l IH]; simpl; [ reflexivity | ].
  destruct (p (h x)); simpl; rewrite IH; reflexivity.
Qed.

Lemma value_eqb_not_null (x c : value) :
  value_eqb x c = true -> c <> NaN -> isnull x = false.
Proof. destruct x, c; simpl; congruence. Qed.

Lemma pairs_of_frame (fdf : DataFrame) (name : string) :
  complete_pairs (map (field fdf name) (rows fdf))
                 (map (field fdf "Attrition") (rows fdf)) =
  filter (fun p => negb (isnull (fst p)) && negb (isnull (snd p)))
         (map (fun r => (field fdf name r, field fdf "Attrition" r)) (rows fdf)).
Proof. unfold complete_pairs. rewrite combine_map. reflexivity. Qed.

Lemma complete_pairs_not_null (index cols : list value) (p : value * value) :
  In p (complete_pairs index cols) -> fst p <> NaN /\ snd p <> NaN.
Proof.
  unfold complete_pairs. rewrite filter_In, andb_true_iff, !negb_true_iff.
  intros (_ & H1 & H2). split; intros E; rewrite E in *; discriminate.
Qed.

(** A count of the table in terms of the rows of the frame. *)
Lemma count_pairs_rows (fdf : DataFrame) (name : string) (c a : value) :
  c <> NaN -> a <> NaN ->
  count_pairs (complete_pairs (map (field fdf name) (rows fdf))
                              (map (field fdf "Attrition") (rows fdf))) c a =
  Z.of_nat (rows_with fdf name c a).
Proof.
  intros Hc Ha. unfold count_pairs, rows_with. f_equal.
  rewrite pairs_of_frame, filter_twice, length_filter_map. simpl.
  f_equal. apply filter_ext. intros r. unfold same_pair. simpl.
  destruct (value_eqb (field fdf name r) c) eqn:E1;
    [ | rewrite andb_false_r; reflexivity ].
  destruct (value_eqb (field fdf "Attrition" r) a) eqn:E2;
    [ | rewrite andb_false_r; reflexivity ].
  rewrite (value_eqb_not_null _ _ E1 Hc), (value_eqb_not_null _ _ E2 Ha).
  reflexivity.
Qed.

Lemma label_pairs_rows (fdf : DataFrame) (name : string) (c : value) :
  c <> NaN ->
  List.length
    (filter (fun p => value_eqb (fst p) c)
       (complete_pairs (map (field fdf name) (rows fdf))
                       (map (field fdf "Attrition") (rows fdf)))) =
  rows_in fdf name c.
Proof.
  intros Hc. unfold rows_in.
  rewrite pairs_of_frame, filter_twice, length_filter_map. simpl.
  f_equal. apply filter_ext. intros r.
  destruct (value_eqb (field fdf name r) c) eqn:E1;
    [ | rewrite andb_false_r; reflexivity ].
  rewrite (value_eqb_not_null _ _ E1 Hc). simpl. apply andb_true_r.
Qed.

(** Every cell of a rate table, read off the rows of the frame. *)
Lemma table_cell (fdf : DataFrame) (name : string) (t : table Q)
  (c a : value) (cells : list (value * Q)) (x : Q) :
  crossTabRate fdf name = Ok t ->
  In (c, cells) t -> In (a, x) cells ->
  c <> NaN /\ a <> NaN /\ (0 < rows_in fdf name c)%nat /\
  x = inject_Z (Z.of_nat (rows_with fdf name c a)) /
      inject_Z (Z.of_nat (rows_in fdf name c)) * 100.
Proof.
  intros H Hin Hx. apply crossTabRate_ok in H. subst t.
  set (index := map (field fdf name) (rows fdf)) in *.
  set (cols := map (field fdf "Attrition") (rows fdf)) in *.
  pose proof (table_rows _ _ _ _ Hin) as (counts & Hc & Ecells).
  pose proof (crosstab_row_sum_pos _ _ _ _ Hc) as Hpos.
  unfold crosstab in Hc. apply in_map_iff in Hc as (c' & E & Hlab).
  injection E as -> <-.
  assert (Nc : c <> NaN).
  { apply labels_In, in_map_iff in Hlab as (p & <- & Hp).
    apply (complete_pairs_not_null _ _ _ Hp). }
  rewrite row_sum_zsum in *.
  rewrite zsum_count_pairs in *;
    try apply labels_NoDupA;
    try (intros p Hp; rewrite mem_labels; apply mem_In, in_map, Hp).
  unfold index, cols in Hpos, Ecells. rewrite label_pairs_rows in * by exact Nc.
  subst cells. rewrite !map_map in Hx. simpl in Hx.
  apply in_map_iff in Hx as (a' & E & Ha'). injection E as -> <-.
  assert (Na : a <> NaN).
  { apply labels_In, in_map_iff in Ha' as (p & <- & Hp).
    apply (complete_pairs_not_null _ _ _ Hp). }
  rewrite (count_pairs_rows fdf name c a Nc Na).
  repeat split; try assumption. lia.
Qed.

(** A cell of the table is the share, in percent, of the rows of its
    category (among those with a recorded attrition) that have its
    attrition value; the category has at least one such row, so nothing
    is divided by zero. *)
Theorem table_cell_is_the_share
  (fdf : DataFrame) (name : string) (t : table Q)
  (c a : value) (cells : list (value * Q)) (x : Q) :
  crossTabRate fdf name = Ok t ->
  In (c, cells) t -> In (a, x) cells ->
  (0 < rows_in fdf name c)%nat /\
  x == inject_Z (Z.of_nat (rows_with fdf name c a)) /
       inject_Z (Z.of_nat (rows_in fdf name c)) * 100.
Proof.
  intros H Hin Hx. destruct (table_cell _ _ _ _ _ _ _ H Hin Hx) as (_ & _ & Hp & ->).
  split; [ exact Hp | reflexivity ].
Qed.

Lemma table_cell_witness :
  exists t cells x,
    crossTabRate staff "Department" = Ok t /\
    In (Str "Sales", cells) t /\ In (Str "Yes", x) cells /\
    rows_in staff "Department" (Str "Sales") = 2%nat /\
    rows_with staff "Department" (Str "Sales") (Str "Yes") = 1%nat /\
    x == 50.
Proof.
  eexists; eexists; eexists.
  split; [ reflexivity | ].
  split; [ right; left; reflexivity | ].
  split; [ right; left; reflexivity | ].
  split; [ reflexivity | ]. split; [ reflexivity | ].
  destruct (table_cell_is_the_share staff "Department" _ (Str "Sales") (Str "Yes")
              _ _ eq_refl (or_intror (or_introl eq_refl))
              (or_intror (or_introl eq_refl))) as [_ E].
  rewrite E. reflexivity.
Defined.

Lemma rows_with_le_rows_in (fdf : DataFrame) (name : string) (c a : value) :
  a <> NaN -> (rows_with fdf name c a <= rows_in fdf name c)%nat.
Proof.
  intros Na. unfold rows_with, rows_in.
  rewrite (filter_filter_implied _
             (fun r => value_eqb (field fdf name r) c &&
                       negb (isnull (field fdf "Attrition" r)))).
  - apply filter_length_le.
  - intros r _ H. apply andb_true_iff in H as [H1 H2].
    rewrite H1, (value_eqb_not_null _ _ H2 Na). reflexivity.
Qed.

(** Every percentage of a table lies between 0 and 100. *)
Theorem table_percentages_in_range
  (fdf : DataFrame) (name : string) (t : table Q)
  (c a : value) (cells : list (value * Q)) (x : Q) :
  crossTabRate fdf name = Ok t ->
  In (c, cells) t -> In (a, x) cells ->
  0 <= x /\ x <= 100.
Proof.
  intros H Hin Hx.
  destruct (table_cell _ _ _ _ _ _ _ H Hin Hx) as (_ & Na & Hp & ->).
  pose proof (rows_with_le_rows_in fdf name c a Na) as Hle.
  set (n := rows_with fdf name c a) in *. set (d := rows_in fdf name c) in *.
  assert (Hd : 0 < inject_Z (Z.of_nat d)).
  { rewrite <- (Zlt_Qlt 0). lia. }
  assert (Hn : 0 <= inject_Z (Z.of_nat n)).
  { rewrite <- (Zle_Qle 0). lia. }
  assert (Hnd : inject_Z (Z.of_nat n) <= inject_Z (Z.of_nat d)).
  { rewrite <- Zle_Qle. lia. }
  split.
  - apply Qmult_le_0_compat; [ | discriminate ].
    apply Qle_shift_div_l; [ exact Hd | ]. rewrite Qmult_0_l. exact Hn.
  - setoid_replace 100 with (1 * 100) at 2 by reflexivity.
    apply Qmult_le_compat_r; [ | discriminate ].
    apply Qle_shift_div_r; [ exact Hd | ]. rewrite Qmult_1_l. exact Hnd.
Qed.

Lemma table_percentages_witness :
  exists t cells x,
    crossTabRate staff "Department" = Ok t /\
    In (Str "Research", cells) t /\ In (Str "No", x) cells /\
    0 <= x /\ x <= 100.
Proof.
  eexists; eexists; eexists.
  split; [ reflexivity | ].
  split; [ left; reflexivity | ].
  split; [ left; reflexivity | ].
  apply (table_percentages_in_range staff "Department" _ (Str "Research")
           (Str "No") _ _ eq_refl (or_introl eq_refl) (or_introl eq_refl)).
Defined.

(* ================================================================== *)
(** * More about the correlation matrix *)

Local Open Scope R_scope.

Lemma co_moment_dot (ps : list (R * R)) : co_moment ps = dot (deviations ps).
Proof. unfold co_moment, dot, deviations. rewrite map_map. reflexivity. Qed.

Lemma map_fst_diag (ps : list (R * R)) : map fst (map diag ps) = map fst ps.
Proof. rewrite map_map. reflexivity. Qed.

Lemma map_snd_diag (ps : list (R * R)) : map snd (map diag ps) = map fst ps.
Proof. rewrite map_map. reflexivity. Qed.

Lemma co_moment_diag_dot (ps : list (R * R)) :
  co_moment (map diag ps) = dot (map diag (deviations ps)).
Proof.
  unfold co_moment, dot, deviations.
  rewrite map_fst_diag, map_snd_diag, !map_map. reflexivity.
Qed.

Lemma co_moment_diag_swap_dot (ps : list (R * R)) :
  co_moment (map diag (map swap ps)) =
  dot (map diag (map swap (deviations ps))).
Proof.
  unfold co_moment, dot, deviations.
  rewrite map_fst_diag, map_snd_diag, !map_map. reflexivity.
Qed.

Lemma dot_diag_nonneg (l : list (R * R)) : 0 <= dot (map diag l).
Proof.
  unfold dot, Rsum. rewrite map_map.
  induction l as [| p l IH]; simpl; [ apply Rle_refl | ].
  simpl in IH.
  pose proof (Rle_0_sqr (fst p)) as H. unfold Rsqr in H. lra.
Qed.

(** Cauchy-Schwarz for a list of pairs. *)
Lemma dot_square_le (l : list (R * R)) :
  dot l * dot l <= dot (map diag l) * dot (map diag (map swap l)).
Proof.
  induction l as [| [u v] l IH].
  - unfold dot. simpl. lra.
  - pose proof (dot_diag_nonneg l) as HA.
    pose proof (dot_diag_nonneg (map swap l)) as HB.
    change (dot ((u, v) :: l)) with (u * v + dot l).
    change (dot (map diag ((u, v) :: l))) with (u * u + dot (map diag l)).
    change (dot (map diag (map swap ((u, v) :: l))))
      with (v * v + dot (map diag (map swap l))).
    set (C := dot l) in *. set (A := dot (map diag l)) in *.
    set (B := dot (map diag (map swap l))) in *.
    assert (Hmix : 2 * C * (u * v) <= A * (v * v) + B * (u * u)).
    { destruct (Rle_lt_dec (2 * C * (u * v)) (A * (v * v) + B * (u * u)))
        as [Hle | Hgt]; [ exact Hle | exfalso ].
      assert (Hy : 0 <= A * (v * v) + B * (u * u)).
      { pose proof (Rle_0_sqr u) as Hu. pose proof (Rle_0_sqr v) as Hv.
        unfold Rsqr in *. nra. }
      assert (Hsq : (A * (v * v) + B * (u * u)) * (A * (v * v) + B * (u * u))
                    < (2 * C * (u * v)) * (2 * C * (u * v))) by nra.
      assert (Huv : 0 <= (u * v) * (u * v)).
      { pose proof (Rle_0_sqr (u * v)) as H. unfold Rsqr in H. exact H. }
      assert (H4 : (2 * C * (u * v)) * (2 * C * (u * v))
                   <= 4 * (A * B) * ((u * v) * (u * v))) by nra.
      assert (Hd : 0 <= (A * (v * v) - B * (u * u)) * (A * (v * v) - B * (u * u))).
      { pose proof (Rle_0_sqr (A * (v * v) - B * (u * u))) as H.
        unfold Rsqr in H. exact H. }
      nra. }
    nra.
Qed.

(** A coefficient, when defined, lies between -1 and 1. *)
Lemma coefficient_bounded (ps : list (R * R)) (r : R) :
  coefficient ps = Some r -> -1 <= r <= 1.
Proof.
  unfold coefficient.
  rewrite co_moment_diag_swap_dot, co_moment_diag_dot, co_moment_dot.
  set (l := deviations ps).
  pose proof (dot_square_le l) as CS.
  pose proof (dot_diag_nonneg l) as HA.
  pose proof (dot_diag_nonneg (map swap l)) as HB.
  set (C := dot l) in *. set (A := dot (map diag l)) in *.
  set (B := dot (map diag (map swap l))) in *.
  destruct (Req_EM_T (sqrt (A * B)) 0) as [E | NE]; [ discriminate | ].
  intros H. injection H as <-.
  assert (HAB : 0 <= A * B) by nra.
  pose proof (sqrt_pos (A * B)) as Hs.
  assert (Hpos : 0 < sqrt (A * B)) by lra.
  pose proof (sqrt_sqrt (A * B) HAB) as Hss.
  set (D := sqrt (A * B)) in *.
  assert (Hup : C <= D) by nra.
  assert (Hlo : - D <= C) by nra.
  split.
  - apply Rmult_le_reg_r with D; [ exact Hpos | ].
    unfold Rdiv. rewrite Rmult_assoc, Rinv_l by exact NE. lra.
  - apply Rmult_le_reg_r with D; [ exact Hpos | ].
    unfold Rdiv. rewrite Rmult_assoc, Rinv_l by exact NE. lra.
Qed.

Lemma pearson_bounded (xs ys : list value) (r : R) :
  pearson xs ys = Some r -> -1 <= r <= 1.
Proof.
  unfold pearson. destruct (pairwise xs ys) as [| p ps]; [ discriminate | ].
  apply coefficient_bounded.
Qed.

(** No entry of the correlation matrix lies outside [-1, 1]. *)
Theorem correlations_are_bounded
  (fdf : DataFrame) (m : matrix) (i j : nat) (r : R) :
  correlation_heatmap fdf = Some m ->
  entry m i j = Some r ->
  -1 <= r <= 1.
Proof.
  unfold correlation_heatmap.
  destruct (1 <? List.length (numeric_cols fdf))%nat; [ | discriminate ].
  intros H. injection H as <-. rewrite entry_corr.
  destruct (nth_error (numeric_cols fdf) i); [ | discriminate ].
  destruct (nth_error (numeric_cols fdf) j); [ | discriminate ].
  apply pearson_bounded.
Qed.

Lemma pay_income_entry :
  entry (corr pay (numeric_cols pay)) 1 1 = Some 1.
Proof.
  rewrite entry_corr. simpl.
  apply (pearson_self _ 2000000).
  - unfold variance. simpl. f_equal. unfold co_moment, mean, Q2R. simpl. field.
  - lra.
Qed.

Lemma correlations_bounded_witness :
  exists m,
    correlation_heatmap pay = Some m /\ entry m 1 1 = Some 1 /\ -1 <= 1 <= 1.
Proof.
  eexists. split; [ reflexivity | ]. split; [ exact pay_income_entry | ].
  apply (correlations_are_bounded pay _ 1%nat 1%nat 1 eq_refl pay_income_entry).
Defined.

(** ** Columns that do not vary *)

Lemma Rsum_const (k : R) (l : list R) :
  (forall x, In x l -> x = k) -> Rsum l = INR (List.length l) * k.
Proof.
  unfold Rsum. induction l as [| x l IH]; intros H.
  - simpl. lra.
  - cbn [fold_right List.length]. rewrite S_INR, IH.
    + rewrite (H x (or_introl eq_refl)). lra.
    + intros y Hy. apply H. right. exact Hy.
Qed.

Lemma mean_const (k : R) (l : list R) :
  l <> [] -> (forall x, In x l -> x = k) -> mean l = k.
Proof.
  intros Hne H. unfold mean. rewrite (Rsum_const k l H).
  assert (Hn : INR (List.length l) <> 0).
  { apply not_0_INR. destruct l; [ congruence | simpl; discriminate ]. }
  field. exact Hn.
Qed.

Lemma Rsum_zero (l : list R) : (forall x, In x l -> x = 0) -> Rsum l = 0.
Proof. intros H. rewrite (Rsum_const 0 l H). lra. Qed.

(** Pairs whose first sides are all the same have no coefficient. *)
Lemma coefficient_const (k : R) (ps : list (R * R)) :
  (forall p, In p ps -> fst p = k) -> coefficient ps = None.
Proof.
  intros H. unfold coefficient.
  assert (E : co_moment (map diag ps) = 0).
  { destruct ps as [| p0 ps']; [ unfold co_moment; simpl; reflexivity | ].
    set (ps := p0 :: ps') in *.
    unfold co_moment. rewrite map_fst_diag, map_snd_diag.
    rewrite (mean_const k (map fst ps)).
    - apply Rsum_zero. intros x Hx.
      apply in_map_iff in Hx as (q & <- & Hq).
      apply in_map_iff in Hq as (p & <- & Hp). simpl.
      rewrite (H p Hp). lra.
    - discriminate.
    - intros x Hx. apply in_map_iff in Hx as (p & <- & Hp). apply H, Hp. }
  rewrite E, Rmult_0_l, sqrt_0.
  destruct (Req_EM_T 0 0); [ reflexivity | congruence ].
Qed.

Lemma pairwise_fst (xs ys : list value) (p : R * R) :
  In p (pairwise xs ys) -> exists q, In (Num q) xs /\ fst p = Q2R q.
Proof.
  revert ys. induction xs as [| x xs IH]; intros [| y ys]; simpl;
    try (intros []).
  destruct x as [| s | q]; simpl.
  - intros H. destruct (IH _ H) as (q & Hq & E). eauto.
  - intros H. destruct (IH _ H) as (q & Hq & E). eauto.
  - destruct (real_of y); simpl.
    + intros [<- | H]; [ exists q; auto | ].
      destruct (IH _ H) as (q' & Hq & E). eauto.
    + intros H. destruct (IH _ H) as (q' & Hq & E). eauto.
Qed.

Lemma pearson_const (xs ys : list value) (k : Q) :
  (forall q, In (Num q) xs -> (q == k)%Q) ->
  pearson xs ys = None /\ pearson ys xs = None.
Proof.
  intros H.
  assert (E : pearson xs ys = None).
  { unfold pearson.
    destruct (pairwise xs ys) as [| p0 ps] eqn:Ep; [ reflexivity | ].
    apply (coefficient_const (Q2R k)). intros p Hp. rewrite <- Ep in Hp.
    apply pairwise_fst in Hp as (q & Hq & ->). apply Qeq_eqR, H, Hq. }
  split; [ exact E | rewrite pearson_sym; exact E ].
Qed.

Lemma column_In (fdf : DataFrame) (name : string) (v : value) :
  In v (column fdf name) -> exists r, In r (rows fdf) /\ field fdf name r = v.
Proof.
  unfold column. destruct (getitem fdf name) as [s | e] eqn:G; [ | intros [] ].
  apply getitem_ok in G. subst s. intros H.
  apply in_map_iff in H as (r & <- & Hr). eauto.
Qed.

(** A numeric column in which every recorded number is the same - a
    single row, a single distinct value - has no defined correlation with
    any column, itself included: its row and its column of the matrix are
    all NaN, the division by a zero deviation being avoided. *)
Theorem constant_column_is_undefined
  (fdf : DataFrame) (m : matrix) (i : nat) (name : string) (k : Q) :
  correlation_heatmap fdf = Some m ->
  nth_error (numeric_cols fdf) i = Some name ->
  (forall r q, In r (rows fdf) -> field fdf name r = Num q -> (q == k)%Q) ->
  forall j, entry m i j = None /\ entry m j i = None.
Proof.
  unfold correlation_heatmap.
  destruct (1 <? List.length (numeric_cols fdf))%nat; [ | discriminate ].
  intros H Hi Hk j. injection H as <-. rewrite !entry_corr, Hi.
  destruct (nth_error (numeric_cols fdf) j) as [other |]; [ | split; reflexivity ].
  apply (pearson_const _ _ k). intros q Hq.
  apply column_In in Hq as (r & Hr & E). apply (Hk r q Hr E).
Qed.

Lemma constant_column_witness :
  exists m,
    correlation_heatmap same_age = Some m /\
    entry m 0 1 = None /\ entry m 1 0 = None /\ entry m 0 0 = None.
Proof.
  eexists. split; [ reflexivity | ].
  pose proof (constant_column_is_undefined same_age _ 0%nat "Age" 30%Q
                eq_refl eq_refl) as H.
  assert (Hk : forall r q,
             In r (rows same_age) -> field same_age "Age" r = Num q ->
             (q == 30)%Q).
  { intros r q [<- | [<- | []]] E; compute in E; injection E as <-; reflexivity. }
  specialize (H Hk).
  split; [ apply (H 1%nat) | ]. split; [ apply (H 1%nat) | apply (H 0%nat) ].
Defined.

Close Scope R_scope.

(* ================================================================== *)
(** * More about the loader *)

Lemma tokenize_app (buf rest : string) :
  tokenize (buf ++ rest) =
  handle_eof (tokenize_bytes (tokenize_bytes initial buf) rest).
Proof. unfold tokenize. fold initial. rewrite tokenize_bytes_app. reflexivity. Qed.

(** Outside an open quoted field, the end of the input closes the
    record the way a line feed does. *)
Lemma eof_like_lf (p : parser) :
  state p <> IN_QUOTED_FIELD ->
  handle_eof p = Ok (rev (records (step p LF))) /\
  handle_eof (step p LF) = Ok (rev (records (step p LF))).
Proof.
  destruct p as [st cs fs rs]. simpl. intros H.
  destruct st; try congruence; split; reflexivity.
Qed.

(** A file whose text ends inside a quoted field that was never closed
    is a [ParserError]; any other file is read the same with and without
    a final line feed. *)
Theorem final_newline_is_optional (buf : string) :
  if in_open_quote buf
  then load_data buf = Raise ParserError
  else load_data buf = load_data (buf ++ String LF EmptyString).
Proof.
  unfold in_open_quote, load_data, read_csv. rewrite tokenize_app.
  unfold tokenize. fold initial.
  set (p := tokenize_bytes initial buf).
  assert (D : state p = IN_QUOTED_FIELD \/ state p <> IN_QUOTED_FIELD).
  { destruct (state p); (left; reflexivity) || (right; discriminate). }
  destruct D as [E | NE].
  - rewrite E. unfold handle_eof. rewrite E. reflexivity.
  - cbn [tokenize_bytes].
    destruct (eof_like_lf p NE) as [E1 E2]. rewrite E1, E2.
    destruct (state p); try reflexivity. congruence.
Qed.

Lemma blank_lines_stay_blank (buf : string) (cs : list ascii) (first : bool) :
  any (fun c => negb (blank_or_lf c)) buf = false ->
  exists (cs' : list ascii) (first' : bool),
    tokenize_bytes
      (mkParser (if first then START_RECORD else WHITESPACE_LINE) cs [] []) buf =
    mkParser (if first' then START_RECORD else WHITESPACE_LINE) cs' [] [].
Proof.
  revert cs first. induction buf as [| c buf IH]; intros cs first H.
  - exists cs, first. reflexivity.
  - simpl in H. apply orb_false_iff in H as [Hc Hb].
    apply negb_false_iff in Hc. unfold blank_or_lf in Hc.
    cbn [tokenize_bytes].
    destruct (Ascii.eqb c LF) eqn:El.
    + assert (E : step (mkParser (if first then START_RECORD else WHITESPACE_LINE)
                          cs [] []) c = mkParser START_RECORD
                          (if first then cs else []) [] []).
      { destruct first; unfold step, start_record; simpl; rewrite El; reflexivity. }
      rewrite E. apply (IH _ true Hb).
    + rewrite orb_false_r in Hc.
      assert (Ecr : Ascii.eqb c CR = false).
      { unfold is_blank in Hc. apply orb_true_iff in Hc as [Hc | Hc];
          apply Ascii.eqb_eq in Hc; subst c; reflexivity. }
      assert (E : step (mkParser (if first then START_RECORD else WHITESPACE_LINE)
                          cs [] []) c = mkParser WHITESPACE_LINE (c :: cs) [] []).
      { destruct first; unfold step, start_record; simpl;
          rewrite El, Ecr, Hc; reflexivity. }
      rewrite E. apply (IH _ false Hb).
Qed.

(** A file with nothing but blank lines - the empty file included -
    has no header: loading it is an [EmptyDataError]. *)
Theorem blank_file_has_no_columns (buf : string) :
  any (fun c => negb (blank_or_lf c)) buf = false ->
  load_data buf = Raise EmptyDataError.
Proof.
  intros H. unfold load_data, read_csv, tokenize.
  destruct (blank_lines_stay_blank buf [] true H) as (cs & first & E).
  simpl in E. rewrite E. destruct first; reflexivity.
Qed.

Lemma blank_file_witness :
  load_data EmptyString = Raise EmptyDataError /\
  load_data (String LF (String SPACE (String TAB (String LF (String SPACE EmptyString)))))
    = Raise EmptyDataError.
Proof.
  split; apply blank_file_has_no_columns; reflexivity.
Defined.

(** A quote that is opened and never closed - here after any number
    of written records - makes loading fail with a [ParserError]. *)
Theorem open_quote_is_a_parser_error
  (recs : list (list string)) (s : string) :
  forallb clean_record recs = true ->
  any (fun c => Ascii.eqb c DQUOTE) s = false ->
  load_data (writerows recs ++ String DQUOTE s) = Raise ParserError.
Proof.
  intros Hc Hs. unfold load_data, read_csv. rewrite tokenize_app.
  unfold initial. change (mkParser START_RECORD [] [] []) with (at_field true [] []).
  rewrite (read_records _ _ Hc). cbn [tokenize_bytes].
  assert (E : forall cs fs rs,
             state (tokenize_bytes (mkParser IN_QUOTED_FIELD cs fs rs) s)
             = IN_QUOTED_FIELD).
  { clear Hc. induction s as [| c s IH]; intros cs fs rs; [ reflexivity | ].
    simpl in Hs. apply orb_false_iff in Hs as [Hq Hs].
    cbn [tokenize_bytes]. unfold step. simpl. rewrite Hq.
    apply (IH Hs). }
  unfold handle_eof.
  change (step (at_field true [] (rev recs ++ [])) DQUOTE)
    with (mkParser IN_QUOTED_FIELD [] [] (rev recs ++ [])).
  rewrite E. reflexivity.
Qed.

Lemma open_quote_witness :
  load_data (writerows [["Age"; "Comment"]; ["41"; "fine"]]
             ++ String DQUOTE "37,never closed")
    = Raise ParserError.
Proof.
  apply (open_quote_is_a_parser_error [["Age"; "Comment"]; ["41"; "fine"]]
           "37,never closed"); reflexivity.
Defined.

(* ================================================================== *)
(** * The numbered sections *)

Lemma view_has_age (df view : DataFrame) (w : Sidebar) :
  filtered_df df w = Ok view -> has_column view "Age" = true.
Proof.
  intros H. apply filtered_df_ok in H as (ds & gs & rng & _ & _ & Hr & S & _).
  rewrite (has_column_schema _ _ "Age" S).
  destruct (has_column df "Age") eqn:E; [ reflexivity | ].
  exfalso. revert Hr. unfold age_range.
  rewrite (age_absent _ E). discriminate.
Qed.

Lemma shown_schema (df df' : DataFrame) :
  schema df' = schema df -> shown df' = shown df.
Proof.
  intros S. unfold shown. apply filter_ext. intros s.
  unfold guard_holds. induction (guard s) as [| name l IH]; [ reflexivity | ].
  simpl. rewrite IH, (has_column_schema _ _ name S). reflexivity.
Qed.

(** Every column a section names is in its own [if], or is [Age] or
    [Attrition]. *)
Lemma reads_are_guarded (fdf : DataFrame) (s : page_section) (name : string) :
  In s (shown fdf) -> In name (reads s) ->
  name = "Age" \/ name = "Attrition" \/ has_column fdf name = true.
Proof.
  unfold shown. rewrite filter_In. intros [Hs Hg] Hn.
  unfold guard_holds in Hg.
  assert (G : In name (guard s) -> has_column fdf name = true).
  { intros Hi. rewrite forallb_forall in Hg. apply Hg, Hi. }
  clear Hg.
  repeat (destruct Hs as [<- | Hs];
          [ simpl in Hn, G;
            repeat (destruct Hn as [<- | Hn];
                    [ first [ left; reflexivity
                            | right; left; reflexivity
                            | right; right; apply G; tauto ] | ]);
            destruct Hn | ]).
  destruct Hs.
Qed.

(** Once the filter block has produced a view of a frame with an
    [Attrition] column, no section the script goes into names a column
    the view lacks. *)
Theorem shown_sections_find_their_columns
  (df view : DataFrame) (w : Sidebar) (s : page_section) :
  filtered_df df w = Ok view ->
  has_column df "Attrition" = true ->
  In s (shown view) ->
  missing_reads view s = [].
Proof.
  intros H Ha Hs.
  pose proof (view_has_age _ _ _ H) as Hage.
  apply filtered_df_ok in H as (_ & _ & _ & _ & _ & _ & S & _).
  rewrite <- (has_column_schema _ _ "Attrition" S) in Ha.
  unfold missing_reads.
  assert (E : forall name, In name (reads s) ->
                           negb (has_column view name) = false).
  { intros name Hn.
    destruct (reads_are_guarded view s name Hs Hn) as [-> | [-> | Hc]].
    - rewrite Hage. reflexivity.
    - rewrite Ha. reflexivity.
    - rewrite Hc. reflexivity. }
  induction (reads s) as [| name l IH]; [ reflexivity | ].
  simpl. rewrite (E name (or_introl eq_refl)).
  apply IH. intros n Hn. apply E. right. exact Hn.
Qed.

Lemma shown_sections_witness :
  exists view,
    filtered_df staff sales_men = Ok view /\
    forall s, In s (shown view) -> missing_reads view s = [].
Proof.
  eexists. split; [ reflexivity | ].
  intros s Hs.
  apply (shown_sections_find_their_columns staff _ sales_men s);
    [ reflexivity | reflexivity | exact Hs ].
Defined.

(** Which sections appear depends on the columns of the dataset alone,
    never on the filters; and the [Age] test of section 18 can not fail
    once the script has got there: the section appears exactly when
    there is a [MonthlyIncome] column. *)
Theorem filters_never_change_the_sections
  (df view : DataFrame) (w : Sidebar) :
  filtered_df df w = Ok view ->
  shown view = shown df /\
  (In 18%nat (map number (shown view)) <->
   has_column df "MonthlyIncome" = true).
Proof.
  intros H.
  pose proof (view_has_age _ _ _ H) as Hage.
  apply filtered_df_ok in H as (_ & _ & _ & _ & _ & _ & S & _).
  rewrite <- (has_column_schema _ _ "MonthlyIncome" S).
  split; [ apply shown_schema, S | ].
  rewrite in_map_iff. split.
  - intros (s & Hn & Hs). unfold shown in Hs. apply filter_In in Hs as [Hs Hg].
    repeat (destruct Hs as [<- | Hs]; [ try discriminate Hn | ]);
      [ | destruct Hs ].
    unfold guard_holds in Hg. simpl in Hg.
    rewrite Hage in Hg. simpl in Hg.
    rewrite andb_true_r in Hg. exact Hg.
  - intros Hm.
    exists (mkSection 18 ["Age"; "MonthlyIncome"]
                      ["Age"; "MonthlyIncome"; "Attrition"]).
    split; [ reflexivity | ].
    unfold shown. apply filter_In. split.
    + simpl. tauto.
    + unfold guard_holds. simpl. rewrite Hage, Hm. reflexivity.
Qed.

Lemma filters_never_change_witness :
  exists view,
    filtered_df staff sales_men = Ok view /\
    shown view = shown staff /\
    (In 18%nat (map number (shown view)) <->
     has_column staff "MonthlyIncome" = true).
Proof.
  eexists. split; [ reflexivity | ].
  apply (filters_never_change_the_sections staff _ sales_men). reflexivity.
Defined.
